(** * Value-at-risk notebook: the Monte Carlo simulation engine

    A shallow embedding of the simulation cells of [var-demo.ipynb]
    (Python 2.7 kernel): [seeds], [portfolio_value], [simstep], [simulate],
    [simulate_with_history], the value-at-risk lookup and the decile
    selection, together with the properties they satisfy.

    Modelling choices:
    - Python floats are IEEE 754 binary64 values, taken from the
      specification of floating-point arithmetic of the standard library
      ([spec_float], precision 53, exponent bound 1024).
    - Python ints are [Z]; under the Python 2 kernel [/] on two ints is
      floor division.
    - a portfolio is a dict object of whatever implementation of Python's
      dict runs the notebook ([PyDict]).  The code relies on this much of
      it: [items()] lists every key once, [d[k] = v] sets one entry and
      leaves the others, and a copy has the entries of its original.  The
      order of traversal is the implementation's: under the CPython 2.7
      kernel it depends on the hashes of the keys, the size of the table and
      the insertions that built the dict, so that two dicts with the same
      entries, or a dict and its copy, can be traversed differently.
      [Cpython27] is that implementation; the definitions are run on it.
      The profile and price maps are only ever indexed, and are finite maps
      ([gmap]).
    - exceptions are the [Raise] branch of [result].
    - [random.Random] is an interface ([Prng]): the Mersenne Twister itself
      belongs to the Python library, not to the notebook.

    - Spark runs a function over the elements of an RDD and collects the
      results in their order ([map_collect]); a broadcast value reaches the
      trials as a dict of its own ([bpf_value]).

    The functions are given twice: over values, where a dict is the state
    of a dict object, and in [Store], where dicts and generators are
    objects with addresses.  The second reading is what the statements
    about aliasing and independence of trials are about; it is shown to
    compute what the first computes. *)

From Stdlib Require Import ZArith Lia SpecFloat.
From stdpp Require Import base option list sorting gmap strings fin_maps.

Open Scope Z_scope.

(** ** Exceptions *)

Inductive exn : Type :=
  | KeyError (key : string)
  | IndexError
  | ValueError
  | OverflowError
  | ReferenceError   (* an address outside the store; see [Store] *)
  | Py4JJavaError.   (* a Spark job that was aborted; see [map_collect] *)

Inductive result (A : Type) : Type :=
  | Ok (a : A)
  | Raise (e : exn).
Arguments Ok {A} a.
Arguments Raise {A} e.

Definition result_map {A B} (f : A → B) (r : result A) : result B :=
  match r with
  | Ok a => Ok (f a)
  | Raise e => Raise e
  end.

Definition result_bind {A B} (r : result A) (k : A → result B) : result B :=
  match r with
  | Ok a => k a
  | Raise e => Raise e
  end.

Definition is_ok {A} (r : result A) : bool :=
  match r with Ok _ => true | Raise _ => false end.

(** ** Python floats *)

Module F64.

Definition prec : Z := 53.
Definition emax : Z := 1024.

Definition float : Type := spec_float.

Definition add : float → float → float := SFadd prec emax.
Definition mul : float → float → float := SFmul prec emax.
Definition div : float → float → float := SFdiv prec emax.
Definition leb : float → float → bool := SFleb.
Definition ltb : float → float → bool := SFltb.

(** Correctly rounded conversion of an integer. *)
Definition round_Z (n : Z) : float := binary_normalize prec emax n 0 false.

Definition is_finite (x : float) : bool :=
  match x with
  | S754_zero _ | S754_finite _ _ _ => true
  | S754_infinity _ | S754_nan => false
  end.

(** [float(n)] for a Python int: [OverflowError] when [n] is too large. *)
Definition of_int (n : Z) : result float :=
  let x := round_Z n in
  if is_finite x then Ok x else Raise OverflowError.

(** [int(x)]: truncation towards zero; [ValueError] on NaN and
    [OverflowError] on an infinity. *)
Definition to_int (x : float) : result Z :=
  match x with
  | S754_zero _ => Ok 0
  | S754_finite s m e => Ok (cond_Zopp s (Z.shiftl (Z.pos m) e))
  | S754_infinity _ => Raise OverflowError
  | S754_nan => Raise ValueError
  end.

(** The mathematical floor, undefined off the reals. *)
Definition floor (x : float) : result Z :=
  match x with
  | S754_zero _ => Ok 0
  | S754_finite s m e => Ok (Z.shiftl (cond_Zopp s (Z.pos m)) e)
  | S754_infinity _ => Raise OverflowError
  | S754_nan => Raise ValueError
  end.

Definition zero : float := S754_zero false.
Definition one : float := Eval vm_compute in round_Z 1.
Definition hundred : float := Eval vm_compute in round_Z 100.
Definition hundred_one : float := Eval vm_compute in round_Z 101.

(** The literal [0.05]: the double nearest to 5/100. *)
Definition lit_0_05 : float := S754_finite false 7205759403792794 (-57).

End F64.

Abbreviation float := F64.float.

(** ** Indexing a Python list *)

Definition len {A} (l : list A) : Z := Z.of_nat (length l).

(** [l[i]]: a negative index counts from the end; out of range raises. *)
Definition getitem {A} (l : list A) (i : Z) : result A :=
  let j := if i <? 0 then len l + i else i in
  if j <? 0 then Raise IndexError
  else match l !! Z.to_nat j with
       | Some a => Ok a
       | None => Raise IndexError
       end.

(** [range(n)]: empty when [n] is not positive. *)
Definition range (n : Z) : list Z := Z.of_nat <$> seq 0 (Z.to_nat n).

Fixpoint result_mapM {A B} (f : A → result B) (l : list A) : result (list B) :=
  match l with
  | [] => Ok []
  | a :: l' =>
      result_bind (f a) (λ b,
      result_bind (result_mapM f l') (λ bs, Ok (b :: bs)))
  end.

(** ** The random source

    The interface of [random.Random] that the notebook uses.  [prng_seed]
    is [Random.seed]: it replaces the whole state by one computed from its
    argument.  [prng_randint a b] is [randint(a, b)], whose contract is
    [a <= N <= b].  [prng_std_normal] is the rejection loop at the head of
    [normalvariate], which yields the accepted deviate
    [z = NV_MAGICCONST * (u1 - 0.5) / u2] with [0 < u2 <= 1], a finite
    float. *)

Class Prng : Type := {
  prng_state : Type;
  prng_seed : Z → prng_state;
  prng_randint : Z → Z → prng_state → Z * prng_state;
  prng_std_normal : prng_state → float * prng_state;
  prng_randint_range : ∀ a b st,
    a ≤ b → a ≤ (prng_randint a b st).1 ≤ b;
  prng_std_normal_finite : ∀ st,
    F64.is_finite (prng_std_normal st).1 = true
}.

(** A small linear congruential generator, used to run the definitions. *)
Module Lcg.

Definition next (st : Z) : Z := (1103515245 * st + 12345) mod 2147483648.

Definition randint (a b st : Z) : Z * Z :=
  (a + st mod (b - a + 1), next st).

Definition deviate (st : Z) : float :=
  if st mod 4 =? 0 then F64.zero
  else if st mod 4 =? 1 then S754_finite false 6755399441055744 (-52)
  else if st mod 4 =? 2 then S754_finite true 4503599627370496 (-54)
  else S754_finite true 5629499534213120 (-51).

Definition std_normal (st : Z) : float * Z := (deviate st, next st).

Lemma randint_range a b st : a ≤ b → a ≤ (randint a b st).1 ≤ b.
Proof.
  intros Hab. unfold randint. simpl.
  pose proof (Z.mod_pos_bound st (b - a + 1)). lia.
Qed.

Lemma std_normal_finite st : F64.is_finite (std_normal st).1 = true.
Proof.
  unfold std_normal, deviate. simpl.
  repeat (destruct (_ =? _)); reflexivity.
Qed.

Definition prng : Prng :=
  {| prng_state := Z;
     prng_seed := Z.abs;
     prng_randint := randint;
     prng_std_normal := std_normal;
     prng_randint_range := randint_range;
     prng_std_normal_finite := std_normal_finite |}.

End Lcg.

(** ** Dicts

    The interface of the dicts that hold a portfolio: tickers for keys,
    floats for values.  [dict_new] is [{}], [dict_setitem k v d] is the
    dict after [d[k] = v], [dict_copy d] is what [d.copy()] returns and
    [dict_items d] is [d.items()], in the order in which [d] is traversed
    ([d.values()] follows the same order).  The laws say what the entries
    are; none of them says in which order they are listed. *)

Class PyDict : Type := {
  pydict : Type;
  dict_new : pydict;
  dict_setitem : string → float → pydict → pydict;
  dict_copy : pydict → pydict;
  dict_items : pydict → list (string * float);
  dict_items_nodup : ∀ d, NoDup (dict_items d).*1;
  dict_new_items : dict_items dict_new = [];
  dict_setitem_entries : ∀ k v d,
    (list_to_map (dict_items (dict_setitem k v d)) : gmap string float)
    = <[k := v]> (list_to_map (dict_items d));
  dict_copy_entries : ∀ d,
    (list_to_map (dict_items (dict_copy d)) : gmap string float)
    = list_to_map (dict_items d)
}.

#[global] Instance float_eq_dec : EqDecision float.
Proof. solve_decision. Defined.

(** The dict of CPython 2.7 on a 64-bit platform, for keys that are ASCII
    strings and without deletions, after [Objects/dictobject.c] and
    [string_hash] of [Objects/stringobject.c] (hash randomisation is off
    unless asked for; a [unicode] ticker hashes like the [str]). *)
Module Cpython27.

(** A C [long] or [size_t], as the unsigned 64-bit word. *)
Definition word (x : Z) : Z := x mod 2 ^ 64.

(** [while (--len >= 0) x = (1000003*x) ^ *p++;] *)
Fixpoint hash_loop (x : Z) (s : string) : Z :=
  match s with
  | EmptyString => x
  | String c s' =>
      hash_loop (Z.lxor (word (1000003 * x)) (Z.of_N (Ascii.N_of_ascii c))) s'
  end.

(** [string_hash]: [0] for the empty string; otherwise [x = *p << 7], the
    loop, [x ^= len], and [-2] in place of [-1]. *)
Definition string_hash (s : string) : Z :=
  match s with
  | EmptyString => 0
  | String c _ =>
      let x := Z.lxor (hash_loop (Z.shiftl (Z.of_N (Ascii.N_of_ascii c)) 7) s)
                 (Z.of_nat (String.length s)) in
      if x =? 2 ^ 64 - 1 then 2 ^ 64 - 2 else x
  end.

(** [ma_table]: the slots, each empty or holding a key and its value. *)
Definition table : Type := list (option (string * float)).

(** The entries in slot order, which is the order of traversal. *)
Definition stored (t : table) : list (string * float) := omap id t.

Definition ma_used (t : table) : Z := Z.of_nat (length (stored t)).

Definition ma_mask (t : table) : Z := Z.of_nat (length t) - 1.

(** The probe sequence of [lookdict_string]: from slot [i & mask] on, it
    stops at the first slot that is empty or holds [key]; past a slot
    with another key it goes on with [i = (i << 2) + i + perturb + 1] and
    [perturb >>= 5].  The C loop is unbounded; here it gives up after
    [probes] further slots and answers with no slot. *)
Fixpoint lookdict_loop (probes : nat) (t : table) (key : string)
    (i perturb : Z) : nat :=
  let slot := Z.to_nat (Z.land i (ma_mask t)) in
  match t !! slot with
  | Some (Some (k, _)) =>
      if decide (k = key) then slot
      else match probes with
           | O => length t
           | S probes' =>
               lookdict_loop probes' t key
                 (word (Z.shiftl i 2 + i + perturb + 1)) (Z.shiftr perturb 5)
           end
  | _ => slot
  end.

Definition lookdict (t : table) (key : string) : nat :=
  let hash := string_hash key in
  lookdict_loop (64 + length t) t key (Z.land hash (ma_mask t)) hash.

Definition insertdict (t : table) (key : string) (value : float) : table :=
  <[lookdict t key := Some (key, value)]> t.

Definition PyDict_MINSIZE : Z := 8.

(** [for (newsize = PyDict_MINSIZE; newsize <= minused; newsize <<= 1);] *)
Fixpoint newsize_loop (doublings : nat) (newsize minused : Z) : Z :=
  match doublings with
  | O => newsize
  | S doublings' =>
      if newsize <=? minused
      then newsize_loop doublings' (Z.shiftl newsize 1) minused
      else newsize
  end.

(** [dictresize]: a table of the new size, filled with the old entries
    in slot order. *)
Definition dictresize (t : table) (minused : Z) : table :=
  let newsize := newsize_loop 64 PyDict_MINSIZE minused in
  foldl (λ t' kv, insertdict t' kv.1 kv.2)
    (replicate (Z.to_nat newsize) None) (stored t).

Definition PyDict_New : table := replicate (Z.to_nat PyDict_MINSIZE) None.

(** [PyDict_SetItem]: insert, then grow when an entry was added and the
    table is two thirds full. *)
Definition PyDict_SetItem (t : table) (key : string) (value : float)
    : table :=
  let n_used := ma_used t in
  let t1 := insertdict t key value in
  if (n_used <? ma_used t1) && ((ma_mask t1 + 1) * 2 <=? ma_used t1 * 3)
  then dictresize t1 ((if 50000 <? ma_used t1 then 2 else 4) * ma_used t1)
  else t1.

(** [PyDict_Copy]: [PyDict_Merge] into a new dict, which sizes the new
    table once for the entries to come and inserts them in slot order. *)
Definition PyDict_Copy (other : table) : table :=
  let mp := PyDict_New in
  if ma_used other =? 0 then mp
  else
    let mp := if (ma_mask mp + 1) * 2 <=? (ma_used mp + ma_used other) * 3
              then dictresize mp ((ma_used mp + ma_used other) * 2)
              else mp in
    foldl (λ t' kv, insertdict t' kv.1 kv.2) mp (stored other).

(** A dict object: its table, and next to it the entries it has been
    given.  CPython finds every key where it was put, so the table always
    holds these entries; that is not proved here.  [items] checks instead:
    it lists the table when the table holds the entries, and the entries
    themselves otherwise, so that the laws of [PyDict] hold for every
    object. *)
Record object : Type := Object {
  ma_table : table;
  ob_entries : gmap string float
}.

Definition items (d : object) : list (string * float) :=
  let l := stored (ma_table d) in
  if bool_decide (NoDup l.*1 ∧ list_to_map l = ob_entries d)
  then l else map_to_list (ob_entries d).

Definition new : object := Object PyDict_New ∅.

Definition setitem (key : string) (value : float) (d : object) : object :=
  Object (PyDict_SetItem (ma_table d) key value)
         (<[key := value]> (ob_entries d)).

Definition copy (d : object) : object :=
  Object (PyDict_Copy (ma_table d)) (ob_entries d).

Lemma items_once d : NoDup (items d).*1.
Proof.
  unfold items. case_bool_decide as H; [apply H|apply NoDup_fst_map_to_list].
Qed.

Lemma items_hold d : list_to_map (items d) = ob_entries d.
Proof.
  unfold items. case_bool_decide as H; [apply H|apply list_to_map_to_list].
Qed.

Lemma new_items : items new = [].
Proof. reflexivity. Qed.

Lemma setitem_entries k v d :
  (list_to_map (items (setitem k v d)) : gmap string float)
  = <[k := v]> (list_to_map (items d)).
Proof. by rewrite !items_hold. Qed.

Lemma copy_entries d :
  (list_to_map (items (copy d)) : gmap string float) = list_to_map (items d).
Proof. by rewrite !items_hold. Qed.

Definition dict : PyDict :=
  {| pydict := object;
     dict_new := new;
     dict_setitem := setitem;
     dict_copy := copy;
     dict_items := items;
     dict_items_nodup := items_once;
     dict_new_items := new_items;
     dict_setitem_entries := setitem_entries;
     dict_copy_entries := copy_entries |}.

End Cpython27.

(** ** Computations that draw from one generator *)

Section Engine.

Context {G : Prng} {D : PyDict}.

(** A computation that reads and advances a generator and may raise. *)
Definition M (A : Type) : Type := prng_state → result (A * prng_state).

Definition ret {A} (a : A) : M A := λ st, Ok (a, st).

Definition bind {A B} (m : M A) (k : A → M B) : M B :=
  λ st, match m st with
        | Ok (a, st') => k a st'
        | Raise e => Raise e
        end.

Definition raise {A} (e : exn) : M A := λ _, Raise e.

Fixpoint mapM {A B} (f : A → M B) (l : list A) : M (list B) :=
  match l with
  | [] => ret []
  | a :: l' =>
      bind (f a) (λ b, bind (mapM f l') (λ bs, ret (b :: bs)))
  end.

(** [prng.normalvariate(mu, sigma)]: [mu + z * sigma]. *)
Definition normalvariate (mu sigma : float) : M float :=
  λ st, let '(z, st') := prng_std_normal st in
        Ok (F64.add mu (F64.mul z sigma), st').

(** *** Portfolios *)

(** [dict(pairs)]: a new dict into which the pairs are set one after the
    other, so that a later pair overrides an earlier one with its key. *)
Definition dict (pairs : list (string * float)) : pydict :=
  foldl (λ d kv, dict_setitem kv.1 kv.2 d) dict_new pairs.

(** [pf.items()] *)
Definition items (pf : pydict) : list (string * float) := dict_items pf.

(** [pf.values()] *)
Definition values (pf : pydict) : list float := (items pf).*2.

(** [pf.copy()] *)
Definition copy (pf : pydict) : pydict := dict_copy pf.

(** What [pf] holds: [entries pf !! s] is [Some v] when [pf[s]] is [v],
    and [None] when [s] is not a key of [pf]. *)
Definition entries (pf : pydict) : gmap string float :=
  list_to_map (items pf).

(** [sum(xs)]: left to right from [0]. *)
Definition sum (xs : list float) : float := foldl F64.add F64.zero xs.

Definition portfolio_value (pf : pydict) : float :=
  sum (values pf).

(** *** One day *)

Definition daily_return (params : gmap string (float * float))
    (sym : string) : M float :=
  match params !! sym with
  | None => raise (KeyError sym)
  | Some (mean, stddev) =>
      bind (normalvariate mean stddev) (λ x,
      ret (F64.div (F64.add x F64.hundred) F64.hundred))
  end.

Definition simstep (pf : pydict)
    (params : gmap string (float * float)) : M pydict :=
  bind (mapM (λ sv : string * float,
                bind (daily_return params sv.1) (λ change,
                ret (sv.1, F64.mul change sv.2)))
             (items pf))
       (λ pairs, ret (dict pairs)).

(** *** A trial *)

(** [for day in range(days): pf = simstep(pf, params, prng)] *)
Fixpoint simulate_loop (days : nat) (pf : pydict)
    (params : gmap string (float * float)) : M pydict :=
  match days with
  | O => ret pf
  | S days' =>
      bind (simstep pf params) (λ pf', simulate_loop days' pf' params)
  end.

Definition simulate (seed : Z) (pf : pydict)
    (params : gmap string (float * float)) (days : Z)
    : result pydict :=
  let prng := prng_seed seed in
  let pf := copy pf in
  result_map fst (simulate_loop (Z.to_nat days) pf params prng).

Fixpoint history_loop (days : nat) (pf : pydict)
    (params : gmap string (float * float)) (values : list float)
    : M (list float) :=
  match days with
  | O => ret values
  | S days' =>
      bind (simstep pf params) (λ pf',
      history_loop days' pf' params (values ++ [portfolio_value pf']))
  end.

Definition simulate_with_history (seed : Z) (pf : pydict)
    (params : gmap string (float * float)) (days : Z)
    : result (list float) :=
  let prng := prng_seed seed in
  let pf := copy pf in
  let values := [portfolio_value pf] in
  result_map fst (history_loop (Z.to_nat days) pf params values prng).

(** *** Seeds *)

(** [[randint(0, 1 << 32 - 1) for i in range(count)]], drawn from the
    module-level generator.  In Python [-] binds tighter than [<<]. *)
Fixpoint seeds_loop (count : nat) (st : prng_state)
    : list Z * prng_state :=
  match count with
  | O => ([], st)
  | S count' =>
      let '(x, st1) := prng_randint 0 (Z.shiftl 1 (32 - 1)) st in
      let '(xs, st2) := seeds_loop count' st1 in
      (x :: xs, st2)
  end.

Definition seeds (count : Z) (st : prng_state) : list Z * prng_state :=
  seeds_loop (Z.to_nat count) st.

End Engine.

(** ** Aggregation *)

(** [simulated_values[int(len(simulated_values) * percentage_var)]] *)
Definition value_at_risk {A} (simulated_values : list A)
    (percentage_var : float) : result A :=
  result_bind (F64.of_int (len simulated_values)) (λ n,
  result_bind (F64.to_int (F64.mul n percentage_var)) (λ i,
  getitem simulated_values i)).

(** [[simulated_results[int((len(simulated_results) - 1) * i / 10)]
      for i in range(11)]]; the operands are ints, so [/] is floor
    division and [int] leaves its argument as it is. *)
Definition decile_index (n i : Z) : Z := (n - 1) * i / 10.

Definition eleven_results {A} (simulated_results : list A)
    : result (list A) :=
  result_mapM
    (λ i, getitem simulated_results (decile_index (len simulated_results) i))
    (range 11).

(** ** The same code over a store of objects

    In Python a dict and a [Random] instance are objects reached through
    references, and a callee can change what its caller sees.  This module
    runs the same functions over an explicit store: every dict and every
    generator has an address, [copy] and [dict] allocate, and
    [normalvariate] updates the generator it is called on. *)

Module Store.
Section Store.

Context {G : Prng} {D : PyDict}.

Record world : Type := World {
  dicts : list pydict;
  rngs : list prng_state;
  urandom : list Z
}.

(** A statement: it may raise, and the store lives on either way. *)
Definition Stmt (A : Type) : Type := world → result A * world.

Definition ret {A} (a : A) : Stmt A := λ w, (Ok a, w).

Definition bind {A B} (m : Stmt A) (k : A → Stmt B) : Stmt B :=
  λ w, match m w with
       | (Ok a, w') => k a w'
       | (Raise e, w') => (Raise e, w')
       end.

Definition raise {A} (e : exn) : Stmt A := λ w, (Raise e, w).

Fixpoint mapM {A B} (f : A → Stmt B) (l : list A) : Stmt (list B) :=
  match l with
  | [] => ret []
  | a :: l' =>
      bind (f a) (λ b, bind (mapM f l') (λ bs, ret (b :: bs)))
  end.

Definition set_rng (p : nat) (st : prng_state) (w : world) : world :=
  World (dicts w) (<[p := st]> (rngs w)) (urandom w).

Definition alloc_dict (d : pydict) : Stmt nat :=
  λ w, (Ok (length (dicts w)),
        World (dicts w ++ [d]) (rngs w) (urandom w)).

Definition read_dict (pf : nat) : Stmt pydict :=
  λ w, match dicts w !! pf with
       | Some d => (Ok d, w)
       | None => (Raise ReferenceError, w)
       end.

(** [Random()]: a new generator, seeded from the operating system. *)
Definition Random : Stmt nat :=
  λ w, (Ok (length (rngs w)),
        World (dicts w)
              (rngs w ++ [prng_seed (hd 0 (urandom w))])
              (tail (urandom w))).

(** [prng.seed(a)] *)
Definition seed (prng : nat) (a : Z) : Stmt unit :=
  λ w, match rngs w !! prng with
       | Some _ => (Ok tt, set_rng prng (prng_seed a) w)
       | None => (Raise ReferenceError, w)
       end.

(** [prng.normalvariate(mu, sigma)] *)
Definition normalvariate (prng : nat) (mu sigma : float) : Stmt float :=
  λ w, match rngs w !! prng with
       | Some st =>
           let '(z, st') := prng_std_normal st in
           (Ok (F64.add mu (F64.mul z sigma)), set_rng prng st' w)
       | None => (Raise ReferenceError, w)
       end.

(** [pf.items()] *)
Definition items (pf : nat) : Stmt (list (string * float)) :=
  bind (read_dict pf) (λ d, ret (dict_items d)).

(** [pf.copy()]: a new object. *)
Definition copy (pf : nat) : Stmt nat :=
  bind (read_dict pf) (λ d, alloc_dict (dict_copy d)).

(** [dict(pairs)]: a new object, filled before anyone else sees it. *)
Definition dict (pairs : list (string * float)) : Stmt nat :=
  alloc_dict (foldl (λ d kv, dict_setitem kv.1 kv.2 d) dict_new pairs).

Definition portfolio_value (pf : nat) : Stmt float :=
  bind (read_dict pf) (λ d, ret (sum (dict_items d).*2)).

Definition daily_return (params : gmap string (float * float))
    (prng : nat) (sym : string) : Stmt float :=
  match params !! sym with
  | None => raise (KeyError sym)
  | Some (mean, stddev) =>
      bind (normalvariate prng mean stddev) (λ x,
      ret (F64.div (F64.add x F64.hundred) F64.hundred))
  end.

Definition simstep (pf : nat) (params : gmap string (float * float))
    (prng : nat) : Stmt nat :=
  bind (items pf) (λ svs,
  bind (mapM (λ sv : string * float,
                bind (daily_return params prng sv.1) (λ change,
                ret (sv.1, F64.mul change sv.2)))
             svs)
       dict).

Fixpoint simulate_loop (days : nat) (pf : nat)
    (params : gmap string (float * float)) (prng : nat) : Stmt nat :=
  match days with
  | O => ret pf
  | S days' =>
      bind (simstep pf params prng) (λ pf',
      simulate_loop days' pf' params prng)
  end.

Definition simulate (a : Z) (pf : nat)
    (params : gmap string (float * float)) (days : Z) : Stmt nat :=
  bind Random (λ prng,
  bind (seed prng a) (λ _,
  bind (copy pf) (λ pf,
  simulate_loop (Z.to_nat days) pf params prng))).

Fixpoint history_loop (days : nat) (pf : nat)
    (params : gmap string (float * float)) (prng : nat)
    (values : list float) : Stmt (list float) :=
  match days with
  | O => ret values
  | S days' =>
      bind (simstep pf params prng) (λ pf',
      bind (portfolio_value pf') (λ v,
      history_loop days' pf' params prng (values ++ [v])))
  end.

Definition simulate_with_history (a : Z) (pf : nat)
    (params : gmap string (float * float)) (days : Z) : Stmt (list float) :=
  bind Random (λ prng,
  bind (seed prng a) (λ _,
  bind (copy pf) (λ pf,
  bind (portfolio_value pf) (λ v,
  history_loop (Z.to_nat days) pf params prng [v])))).

(** What a caller holds after a call that returns a dict. *)
Definition outcome (run : result nat * world) : result pydict :=
  match run with
  | (Ok r, w) =>
      match dicts w !! r with
      | Some d => Ok d
      | None => Raise ReferenceError
      end
  | (Raise e, _) => Raise e
  end.

End Store.
End Store.

(** ** Notions used in the statements *)

(** Neither negative nor minus infinity: the sign bit of a number that is
    not a zero is clear. *)
Definition sign_clear (x : float) : Prop :=
  match x with
  | S754_finite s _ _ | S754_infinity s => s = false
  | S754_zero _ | S754_nan => True
  end.

(** [0 <= alpha < 1] in Python's comparison of floats. *)
Definition in_unit (alpha : float) : Prop :=
  F64.leb F64.zero alpha = true ∧ F64.ltb alpha F64.one = true.

(** Ascending order, as [list.sort] leaves a list of numbers. *)
Definition ascending (xs : list float) : Prop :=
  StronglySorted (λ x y, F64.leb x y = true) xs.

(** The index the specification names: the floor of the product of the
    length and the risk fraction. *)
Definition floor_index (L : Z) (alpha : float) : result Z :=
  result_bind (F64.of_int L) (λ n, F64.floor (F64.mul n alpha)).

(** The rule the specification words: an index nearest to
    [(L - 1) * i / 10], whichever way a tie is broken. *)
Definition nearest_index (L i q : Z) : Prop :=
  Z.abs (10 * q - (L - 1) * i) ≤ 5.

(** Decile selection as the specification states it. *)
Definition selects_rounded {A} (rs sel : list A) : Prop :=
  length sel = 11%nat
  ∧ ∀ i : nat, (i ≤ 10)%nat →
      ∃ q, nearest_index (len rs) (Z.of_nat i) q
           ∧ sel !! i = rs !! Z.to_nat q.

(** Seven results, paired with their seeds. *)
Definition seven_results : list (float * Z) :=
  (λ k, (F64.round_Z (k - 3), 1000 + k)) <$> range 7.

(** The entries of the portfolio [{"AAA": 100.0}]. *)
Definition one_security : gmap string float :=
  {[ "AAA"%string := F64.hundred ]}.

(** That portfolio as a dict of CPython 2.7. *)
Definition one_security_dict : @pydict Cpython27.dict :=
  dict [("AAA"%string, F64.hundred)].

Definition rising_profile : gmap string (float * float) :=
  {[ "AAA"%string := (F64.one, F64.zero) ]}.

Definition flat_profile : gmap string (float * float) :=
  {[ "AAA"%string := (F64.zero, F64.zero) ]}.

Definition neg_one : float := S754_finite true 4503599627370496 (-52).

(** Ten thousand sorted outcomes: five hundred losses, then gains. *)
Definition ten_thousand_outcomes : list float :=
  replicate 500 neg_one ++ replicate (Z.to_nat 9500) F64.one.

(** [{"AAA": 100.0, "BBB": 101.0}] as a dict of CPython 2.7. *)
Definition two_securities : @pydict Cpython27.dict :=
  dict [("AAA"%string, F64.hundred); ("BBB"%string, F64.hundred_one)].

(** [two_securities] rebuilt from its items, as unpickling a broadcast
    value does. *)
Definition two_securities_broadcast : @pydict Cpython27.dict :=
  dict (items two_securities).

(** A portfolio whose value depends on the order of the sum: one large
    holding and two small ones, set in this order.  The tickers AAA and
    AAI hash to the same slot of a table of eight. *)
Definition heavy_portfolio : @pydict Cpython27.dict :=
  dict [("AAA"%string, F64.round_Z (10 ^ 16)); ("AAD"%string, F64.one);
        ("AAI"%string, F64.one)].

Definition two_profiles : gmap string (float * float) :=
  {[ "AAA"%string := (F64.one, F64.one); "BBB"%string := (F64.zero, F64.one) ]}.

(** [rec] is what is left of [M] after [t] shifts to the right. *)
Definition shifted (M t : Z) (rec : shr_record) : Prop :=
  0 ≤ shr_m rec
  ∧ shr_m rec * 2 ^ t ≤ M
  ∧ (shr_r rec = true → 1 ≤ t ∧ (2 * shr_m rec + 1) * 2 ^ (t - 1) ≤ M).

Section Notions.

Context {G : Prng} {D : PyDict}.
Implicit Types (w : Store.world) (st : prng_state).
Implicit Types (pf : pydict) (params : gmap string (float * float)).

(** Every held symbol has a profile. *)
Definition covers params pf : Prop := dom (entries pf) ⊆ dom params.

(** The body of the comprehension in [simstep]. *)
Definition revalue params (sv : string * float) : M (string * float) :=
  bind (daily_return params sv.1) (λ change,
  ret (sv.1, F64.mul change sv.2)).

(** The generator after [normalvariate] has drawn from it once. *)
Definition advance st : prng_state := (prng_std_normal st).2.

(** [kv] is [sv] after one day: the quantity is multiplied by
    [(x + 100) / 100], where [x] is what [normalvariate] returns for the
    mean and deviation recorded for the symbol, at one of the first [n]
    draws from the generator in state [st]. *)
Definition drawn params st (n : nat) (sv kv : string * float) : Prop :=
  kv.1 = sv.1
  ∧ ∃ mean stddev k x st1,
      (k < n)%nat
      ∧ params !! sv.1 = Some (mean, stddev)
      ∧ normalvariate mean stddev (Nat.iter k advance st) = Ok (x, st1)
      ∧ kv.2 = F64.mul (F64.div (F64.add x F64.hundred) F64.hundred) sv.2.

(** A run from [w] that only allocates dicts and advances the generator
    at [p]. *)
Definition advances (p : nat) w w' : Prop :=
  ∃ extra st',
    w' = Store.World (Store.dicts w ++ extra)
                     (<[p := st']> (Store.rngs w)) (Store.urandom w).

(** The body of the comprehension in [Store.simstep]. *)
Definition store_revalue params (prng : nat) (sv : string * float)
    : Store.Stmt (string * float) :=
  Store.bind (Store.daily_return params prng sv.1) (λ change,
  Store.ret (sv.1, F64.mul change sv.2)).

(** The store after [Random()], [prng.seed(a)] and [pf.copy()]. *)
Definition trial_start (a : Z) pf w : Store.world :=
  Store.World (Store.dicts w ++ [copy pf])
              (Store.rngs w ++ [prng_seed a])
              (tail (Store.urandom w)).

(** A trial leaves every dict and every generator of the store it
    started from as it was. *)
Definition trial_frame w w' : Prop :=
  ∃ dicts' st',
    w' = Store.World (Store.dicts w ++ dicts')
                     (Store.rngs w ++ [st'])
                     (tail (Store.urandom w)).

End Notions.

(** Two stores that hold the same portfolio at different addresses, next
    to other dicts and generators. *)
Definition store_a : @Store.world Lcg.prng Cpython27.dict :=
  Store.World [two_securities] [@prng_seed Lcg.prng 0] [5; 6].

Definition store_b : @Store.world Lcg.prng Cpython27.dict :=
  Store.World [one_security_dict; two_securities]
    [@prng_seed Lcg.prng 17; @prng_seed Lcg.prng 4] [].

(** ** The rest of the notebook: setting up and collecting a campaign *)

(** [x - y] on floats. *)
Definition float_sub : float → float → float := SFsub F64.prec F64.emax.

(** [l[::step]]: every [step]-th element from the first one, or from the
    last one backwards when [step] is negative; a zero step raises. *)
Definition slice_step {A} (l : list A) (step : Z) : result (list A) :=
  if step =? 0 then Raise ValueError
  else
    let n := (len l + Z.abs step - 1) / Z.abs step in
    let start := if 0 <? step then 0 else len l - 1 in
    Ok (omap (λ i, l !! Z.to_nat (start + i * step)) (range n)).

(** [len(simulated_values) > 1000 and 20 or 1] *)
Definition plotevery {A} (simulated_values : list A) : Z :=
  if 1000 <? len simulated_values then 20 else 1.

(** [simulated_values[::plotevery]] *)
Definition plotted_values {A} (simulated_values : list A) : result (list A) :=
  slice_step simulated_values (plotevery simulated_values).

(** [xvals]: the cumulative share that goes with each sorted value.  The
    divisor is the length of the list the comprehension ranges over, so
    the division runs only with a divisor of at least one. *)
Definition xvals {A} (simulated_values : list A) : result (list float) :=
  result_mapM
    (λ i, result_bind (F64.of_int i) (λ x,
          result_bind (F64.of_int (len simulated_values)) (λ n,
          Ok (F64.div x n))))
    (range (len simulated_values)).

(** [xvals[::plotevery]] *)
Definition plotted_xvals {A} (simulated_values : list A)
    : result (list float) :=
  result_bind (xvals simulated_values) (λ xs,
  slice_step xs (plotevery simulated_values)).

(** [rdd.map(f).collect()] on a parallelized list: the results, in the
    order of the elements.  When [f] raises on an element its task fails,
    Spark aborts the job, and what [collect()] raises in the notebook is
    py4j's [Py4JJavaError]; the exception of [f] is only quoted in its
    message. *)
Definition map_collect {A B} (f : A → result B) (rdd : list A)
    : result (list B) :=
  match result_mapM f rdd with
  | Ok bs => Ok bs
  | Raise _ => Raise Py4JJavaError
  end.

Section Campaign.

Context {G : Prng} {D : PyDict}.

(** [randint(a, b)]; an empty range raises. *)
Definition randint (a b : Z) : M Z :=
  λ st, if a <=? b then Ok (prng_randint a b st) else Raise ValueError.

(** The module-level generator after one [randint(1, 1000)]. *)
Definition lot_draw (st : prng_state) : prng_state :=
  (prng_randint 1 1000 st).2.

(** [for s in symbols: result[s] = prices[s] * (randint(1, 1000) * 11)];
    [prices] is the global price map of the notebook. *)
Fixpoint random_portfolio_loop (prices : gmap string float)
    (symbols : list string) (result : pydict) : M pydict :=
  match symbols with
  | [] => ret result
  | s :: symbols' =>
      match prices !! s with
      | None => raise (KeyError s)
      | Some price =>
          bind (randint 1 1000) (λ k,
          match F64.of_int (k * 11) with
          | Raise e => raise e
          | Ok lots =>
              random_portfolio_loop prices symbols'
                (dict_setitem s (F64.mul price lots) result)
          end)
      end
  end.

(** [result = {}], the loop, [return result]. *)
Definition random_portfolio (prices : gmap string float)
    (symbols : list string) : M pydict :=
  random_portfolio_loop prices symbols dict_new.

(** [days_to_simulate = 5] *)
Definition days_to_simulate : Z := 5.

(** The function mapped over the seeds:
    [portfolio_value(simulate(s, bpf.value, bparams.value, days))
      - initial_value].
    [bpf_value] is the dict that [bpf.value] hands to the trials: Spark
    pickles the broadcast portfolio and a reader unpickles it, so it is a
    dict of its own, with the entries of [portfolio]. *)
Definition trial_outcome (days : Z) (bpf_value : pydict)
    (params : gmap string (float * float)) (initial_value : float)
    (s : Z) : result float :=
  result_map (λ pf, float_sub (portfolio_value pf) initial_value)
    (simulate s bpf_value params days).

(** [initial_value = portfolio_value(portfolio)] and
    [list(zip(results.collect(), seed_rdd.collect()))] *)
Definition simulated_results (days : Z) (portfolio bpf_value : pydict)
    (params : gmap string (float * float)) (seed_list : list Z)
    : result (list (float * Z)) :=
  let initial_value := portfolio_value portfolio in
  result_map (λ outcomes, zip outcomes seed_list)
    (map_collect (trial_outcome days bpf_value params initial_value)
       seed_list).

(** [[v for (v, _) in simulated_results]] *)
Definition simulated_values (results : list (float * Z)) : list float :=
  results.*1.

(** [[seed for (_, seed) in eleven_results]] *)
Definition eleven_seeds (eleven : list (float * Z)) : list Z := eleven.*2.

(** [eleven_seeds.map(lambda s: simulate_with_history(s, pf, params, 5))
      .collect()] *)
Definition walk_results (bpf_value : pydict)
    (params : gmap string (float * float)) (eleven : list (float * Z))
    : result (list (list float)) :=
  map_collect (λ s, simulate_with_history s bpf_value params 5)
    (eleven_seeds eleven).

(** [q] is what pass [i] of the loop of [random_portfolio] sets for the
    ticker [s], when the generator is in state [st] before the loop: the
    price of [s] times [k * 11], where [k] is what the call of
    [randint(1, 1000)] of that pass returns. *)
Definition lot_set (prices : gmap string float) (st : prng_state)
    (i : nat) (s : string) (q : float) : Prop :=
  ∃ price lots,
    prices !! s = Some price
    ∧ F64.of_int ((prng_randint 1 1000 (Nat.iter i lot_draw st)).1 * 11)
      = Ok lots
    ∧ q = F64.mul price lots.

End Campaign.

(** A price map and a ticker list to run the set-up on. *)
Definition sample_prices : gmap string float :=
  {[ "AAA"%string := F64.hundred; "BBB"%string := F64.one ]}.

Definition sample_symbols : list string :=
  ["BBB"%string; "AAA"%string; "BBB"%string].

Definition three_profiles : gmap string (float * float) :=
  {[ "AAA"%string := (F64.zero, F64.one);
     "AAD"%string := (F64.zero, F64.one);
     "AAI"%string := (F64.zero, F64.one) ]}.

Definition nan_profiles : gmap string (float * float) :=
  {[ "AAA"%string := (F64.one, S754_nan);
     "BBB"%string := (F64.zero, F64.one) ]}.

(** * Properties *)

(** ** Floats *)

Example lit_0_05_nearest :
  F64.div (F64.round_Z 5) (F64.round_Z 100) = F64.lit_0_05.
Proof. vm_compute. reflexivity. Qed.

Example hundred_valid : valid_binary F64.prec F64.emax F64.hundred = true.
Proof. vm_compute. reflexivity. Qed.

Example to_int_trunc_neg :
  F64.to_int (F64.div (F64.round_Z (-7)) (F64.round_Z 2)) = Ok (-3)
  ∧ F64.floor (F64.div (F64.round_Z (-7)) (F64.round_Z 2)) = Ok (-4).
Proof. vm_compute. split; reflexivity. Qed.

(** Rounding keeps the sign it is given: the result is a zero, a finite
    number or an infinity of that sign, or NaN. *)
Lemma binary_round_aux_sign sx mx ex lx :
  match binary_round_aux F64.prec F64.emax sx mx ex lx with
  | S754_zero s | S754_infinity s | S754_finite s _ _ => s = sx
  | S754_nan => True
  end.
Proof.
  unfold binary_round_aux.
  destruct (shr_fexp _ _ mx ex lx) as [mrs' e'].
  destruct (shr_fexp _ _ _ e' loc_Exact) as [mrs'' e''].
  destruct (shr_m mrs''); [done| |done].
  by destruct (_ <=? _).
Qed.

Lemma round_Z_pos_sign (p : positive) :
  match F64.round_Z (Z.pos p) with
  | S754_zero s | S754_infinity s | S754_finite s _ _ => s = false
  | S754_nan => True
  end.
Proof.
  unfold F64.round_Z, binary_normalize, binary_round.
  destruct (shl_align _ _ _) as [mz ez].
  apply binary_round_aux_sign.
Qed.

(** [int] and the floor agree on every float that is not negative. *)
Lemma to_int_floor_nonneg (x : float) :
  match x with S754_finite true _ _ => False | _ => True end →
  F64.to_int x = F64.floor x.
Proof. by destruct x as [| | |[] m e]. Qed.

(** A finite deviate times a zero spread leaves the mean as it is. *)
Lemma add_mul_zero_spread (mu z : float) :
  F64.is_finite z = true →
  match mu with
  | S754_finite _ _ _ | S754_zero false => True
  | _ => False
  end →
  F64.add mu (F64.mul z F64.zero) = mu.
Proof.
  intros Hz Hmu.
  destruct z as [sz| | |sz mz ez]; try discriminate;
    destruct mu as [[]| | |sm mm em]; try done; by destruct sz.
Qed.

Lemma mul_sign_clear (x y : float) :
  sign_clear x → sign_clear y → sign_clear (F64.mul x y).
Proof.
  destruct x as [sx|sx| |sx mx ex], y as [sy|sy| |sy my ey];
    simpl; intros Hx Hy; subst; try done.
  pose proof (binary_round_aux_sign (xorb false false)
                (Z.pos (mx * my)) (ex + ey) loc_Exact) as Hs.
  unfold F64.mul, SFmul.
  by destruct (binary_round_aux _ _ _ _ _ _).
Qed.

Lemma round_Z_pos_sign_clear (n : Z) : 0 ≤ n → sign_clear (F64.round_Z n).
Proof.
  destruct n as [|p|p]; [done| |lia]. intros _.
  pose proof (round_Z_pos_sign p) as Hs.
  by destruct (F64.round_Z (Z.pos p)).
Qed.

Lemma to_int_floor_sign_clear (x : float) :
  sign_clear x → F64.to_int x = F64.floor x.
Proof.
  intros Hx. apply to_int_floor_nonneg. by destruct x as [| | |[] ? ?].
Qed.

Lemma in_unit_sign_clear (alpha : float) : in_unit alpha → sign_clear alpha.
Proof.
  intros [H0 H1]. destruct alpha as [s|[]| |[] m e]; try done.
Qed.

(** The number of binary digits of a positive number. *)
Lemma digits2_pos_bounds (p : positive) :
  2 ^ (Z.pos (digits2_pos p) - 1) ≤ Z.pos p < 2 ^ Z.pos (digits2_pos p).
Proof.
  induction p as [p IH|p IH|]; simpl digits2_pos.
  - rewrite Pos2Z.inj_succ.
    replace (Z.succ (Z.pos (digits2_pos p)) - 1)
      with (Z.succ (Z.pos (digits2_pos p) - 1)) by lia.
    rewrite !Z.pow_succ_r by lia. lia.
  - rewrite Pos2Z.inj_succ.
    replace (Z.succ (Z.pos (digits2_pos p)) - 1)
      with (Z.succ (Z.pos (digits2_pos p) - 1)) by lia.
    rewrite !Z.pow_succ_r by lia. lia.
  - simpl. lia.
Qed.

Lemma digits2_pos_le (p : positive) (d : Z) :
  0 ≤ d → Z.pos p < 2 ^ d → Z.pos (digits2_pos p) ≤ d.
Proof.
  intros Hd Hp. destruct (Z.le_gt_cases (Z.pos (digits2_pos p)) d) as [|Hgt];
    [done|].
  pose proof (digits2_pos_bounds p) as [Hlo _].
  assert (2 ^ d ≤ 2 ^ (Z.pos (digits2_pos p) - 1))
    by (apply Z.pow_le_mono_r; lia).
  lia.
Qed.

Lemma digits2_pos_iter_xO (p k : positive) :
  Z.pos (digits2_pos (Pos.iter xO p k)) = Z.pos (digits2_pos p) + Z.pos k.
Proof.
  induction k as [|k IH] using Pos.peano_ind.
  - simpl. lia.
  - rewrite Pos.iter_succ. simpl digits2_pos. lia.
Qed.

(** A mantissa of exactly 53 digits with an exponent in range is already
    rounded. *)
Lemma binary_round_aux_exact (s : bool) (m : positive) (e : Z) :
  Z.pos (digits2_pos m) = 53 → -1074 ≤ e ≤ 971 →
  binary_round_aux F64.prec F64.emax s (Z.pos m) e loc_Exact
  = S754_finite s m e.
Proof.
  intros Hd He.
  unfold binary_round_aux, shr_fexp, fexp, emin, F64.prec, F64.emax.
  simpl Zdigits2. rewrite Hd.
  replace (Z.max (53 + e - 53) (3 - 1024 - 53) - e) with 0 by lia.
  simpl. rewrite Hd.
  replace (Z.max (53 + e - 53) (3 - 1024 - 53) - e) with 0 by lia.
  simpl. destruct (Z.leb_spec e (1024 - 53)); [done|lia].
Qed.

Lemma pos_iter_xO_value (p k : positive) :
  Z.pos (Pos.iter xO p k) = Z.pos p * 2 ^ Z.pos k.
Proof.
  induction k as [|k IH] using Pos.peano_ind.
  - simpl. lia.
  - rewrite Pos.iter_succ, Pos2Z.inj_succ, Z.pow_succ_r by lia.
    rewrite Pos2Z.inj_xO, IH. ring.
Qed.

(** The float of an integer below [2^53], in full. *)
Lemma round_Z_small_exact (L : Z) :
  1 ≤ L < 2 ^ 53 →
  ∃ mx ex, F64.round_Z L = S754_finite false mx ex
           ∧ -52 ≤ ex ≤ 0
           ∧ Z.pos mx = L * 2 ^ (- ex).
Proof.
  intros [HL1 HL]. destruct L as [|p|p]; try lia.
  pose proof (digits2_pos_le p 53 ltac:(lia) HL) as Hd.
  unfold F64.round_Z, binary_normalize, binary_round, shl_align, fexp, emin,
    F64.prec, F64.emax.
  replace (Z.max (Z.pos (digits2_pos p) + 0 - 53) (3 - 1024 - 53))
    with (Z.pos (digits2_pos p) - 53) by lia.
  destruct (Z.pos (digits2_pos p) - 53 - 0) as [|k|k] eqn:Hk; [|lia|].
  - exists p, 0. split; [apply (binary_round_aux_exact false); lia|].
    split; [lia|]. simpl. lia.
  - exists (Pos.iter xO p k), (Z.pos (digits2_pos p) - 53).
    split; [apply (binary_round_aux_exact false)|].
    + rewrite digits2_pos_iter_xO. lia.
    + lia.
    + split; [lia|]. rewrite pos_iter_xO_value. do 2 f_equal. lia.
Qed.

Lemma of_int_small (n : Z) :
  0 ≤ n < 2 ^ 53 → ∃ x, F64.of_int n = Ok x ∧ F64.is_finite x = true.
Proof.
  intros [Hn0 Hn]. unfold F64.of_int.
  destruct (Z.eq_dec n 0) as [->|Hne]; [by eexists|].
  destruct (round_Z_small_exact n) as (m & e & -> & _); [lia|]. by eexists.
Qed.

(** ** Rounding a product below an integer *)

Lemma shifted_start (M : Z) :
  0 ≤ M → shifted M 0 (Build_shr_record M false false).
Proof. intros HM. repeat split; simpl; try lia; done. Qed.

Lemma shifted_shr_1 (M t : Z) (rec : shr_record) :
  0 ≤ t → shifted M t rec → shifted M (t + 1) (shr_1 rec).
Proof.
  intros Ht (Hm & Hle & _). destruct rec as [m r s]. unfold shifted.
  simpl in Hm, Hle.
  replace (t + 1 - 1) with t by lia.
  rewrite Z.pow_add_r, Z.pow_1_r by lia.
  pose proof (Z.pow_pos_nonneg 2 t ltac:(lia) Ht) as Hpow.
  destruct m as [|[p|p|]|p]; simpl; repeat split; try lia; try nia; try done.
Qed.

Lemma shifted_iter_pos (M t : Z) (k : positive) (rec : shr_record) :
  0 ≤ t → shifted M t rec →
  shifted M (t + Z.pos k) (SpecFloat.iter_pos shr_1 k rec).
Proof.
  revert t rec. induction k as [k IH|k IH|]; intros t rec Ht Hrec; simpl.
  - replace (t + Z.pos k~1) with (t + 1 + Z.pos k + Z.pos k) by lia.
    apply IH; [lia|]. apply IH; [lia|]. by apply shifted_shr_1.
  - replace (t + Z.pos k~0) with (t + Z.pos k + Z.pos k) by lia.
    apply IH; [lia|]. by apply IH.
  - by apply shifted_shr_1.
Qed.

Lemma shifted_round (M t : Z) (rec : shr_record) :
  0 ≤ t → shifted M t rec →
  0 ≤ round_nearest_even (shr_m rec) (loc_of_shr_record rec)
  ∧ round_nearest_even (shr_m rec) (loc_of_shr_record rec) * 2 ^ t
    ≤ M + 2 ^ (t - 1).
Proof.
  intros Ht (Hm & Hle & Hr). destruct rec as [m r s]. simpl in *.
  assert (0 ≤ 2 ^ (t - 1)) as Hhalf by (apply Z.pow_nonneg; lia).
  destruct r; [|destruct s; simpl; lia].
  destruct Hr as [Ht1 Hr]; [done|].
  assert (2 ^ t = 2 * 2 ^ (t - 1)) as Hdouble.
  { replace t with (Z.succ (t - 1)) at 1 by lia. apply Z.pow_succ_r. lia. }
  destruct s; simpl; [nia|]. destruct (Z.even m); nia.
Qed.

(** What [shr_fexp] leaves of a mantissa [M] at exponent [e]. *)
Lemma shr_fexp_shifted (M e : Z) :
  0 ≤ M →
  ∃ t, 0 ≤ t
       ∧ t = Z.max 0 (fexp F64.prec F64.emax (Zdigits2 M + e) - e)
       ∧ (shr_fexp F64.prec F64.emax M e loc_Exact).2 = e + t
       ∧ shifted M t (shr_fexp F64.prec F64.emax M e loc_Exact).1.
Proof.
  intros HM. unfold shr_fexp, shr. simpl shr_record_of_loc.
  destruct (fexp F64.prec F64.emax (Zdigits2 M + e) - e) as [|k|k] eqn:Hk.
  - exists 0. split; [lia|]. split; [lia|]. split; [simpl; lia|].
    by apply shifted_start.
  - exists (Z.pos k). split; [lia|]. split; [lia|]. split; [done|].
    apply (shifted_iter_pos M 0 k); [lia|]. by apply shifted_start.
  - exists 0. split; [lia|]. split; [lia|]. split; [simpl; lia|].
    by apply shifted_start.
Qed.

(** Rounding to nearest cannot reach an integer [L] from a value that is
    more than half a unit in the last place below it. *)
Lemma binary_round_aux_below (m : positive) (e L : Z) :
  e ≤ 0 → 1 ≤ L < 2 ^ 53 →
  Z.pos m
  + 2 ^ (Z.max 0 (fexp F64.prec F64.emax (Z.pos (digits2_pos m) + e) - e) - 1)
  < L * 2 ^ (- e) →
  ∃ i, F64.floor
         (binary_round_aux F64.prec F64.emax false (Z.pos m) e loc_Exact)
       = Ok i
       ∧ 0 ≤ i < L.
Proof.
  intros He HL Hbound. unfold binary_round_aux.
  destruct (shr_fexp_shifted (Z.pos m) e) as (t & Ht & Hteq & He' & Hsh); [lia|].
  simpl Zdigits2 in Hteq. rewrite <- Hteq in Hbound. clear Hteq.
  destruct (shr_fexp F64.prec F64.emax (Z.pos m) e loc_Exact) as [mrs' e'].
  simpl in He', Hsh. subst e'.
  destruct (shifted_round _ _ _ Ht Hsh) as [Hm1 Hm1le].
  set (m1 := round_nearest_even (shr_m mrs') (loc_of_shr_record mrs')) in *.
  destruct (shr_fexp_shifted m1 (e + t) Hm1) as (t2 & Ht2 & _ & He'' & Hsh2).
  destruct (shr_fexp F64.prec F64.emax m1 (e + t) loc_Exact) as [mrs'' e''].
  simpl in He'', Hsh2. subst e''. destruct Hsh2 as (Hq2 & Hq2le & _).
  destruct (shr_m mrs'') as [|m2|m2];
    [exists 0; simpl; split; [done|lia]| |lia].
  assert (0 < 2 ^ t) as Hpt by (apply Z.pow_pos_nonneg; lia).
  assert (0 < 2 ^ t2) as Hpt2 by (apply Z.pow_pos_nonneg; lia).
  assert (0 < 2 ^ (- e)) as Hpe by (apply Z.pow_pos_nonneg; lia).
  assert (Z.pos m2 * 2 ^ (t + t2) < L * 2 ^ (- e)) as Hlt.
  { rewrite Z.pow_add_r by lia. nia. }
  destruct (Z.le_gt_cases 0 (e + t + t2)) as [Hpos|Hneg].
  - assert (Z.pos m2 * 2 ^ (e + t + t2) < L) as Hval.
    { replace (t + t2) with ((e + t + t2) + - e) in Hlt by lia.
      rewrite Z.pow_add_r in Hlt by lia.
      assert (0 < 2 ^ (e + t + t2)) by (apply Z.pow_pos_nonneg; lia). nia. }
    assert (e + t + t2 < 53) as Hexp.
    { apply (Z.pow_lt_mono_r_iff 2); [lia|lia|].
      assert (0 < 2 ^ (e + t + t2)) by (apply Z.pow_pos_nonneg; lia). nia. }
    destruct (Z.leb_spec (e + t + t2) (F64.emax - F64.prec)) as [_|Hbig];
      [|unfold F64.emax, F64.prec in Hbig; lia].
    eexists. split; [reflexivity|]. simpl cond_Zopp.
    rewrite Z.shiftl_mul_pow2 by lia.
    assert (0 < 2 ^ (e + t + t2)) by (apply Z.pow_pos_nonneg; lia). nia.
  - destruct (Z.leb_spec (e + t + t2) (F64.emax - F64.prec)) as [_|Hbig];
      [|unfold F64.emax, F64.prec in Hbig; lia].
    eexists. split; [reflexivity|]. simpl cond_Zopp.
    rewrite Z.shiftl_div_pow2 by lia.
    assert (0 < 2 ^ (- (e + t + t2))) as Hpd by (apply Z.pow_pos_nonneg; lia).
    split; [apply Z.div_pos; lia|].
    apply Z.div_lt_upper_bound; [done|].
    assert (2 ^ (- e) = 2 ^ (t + t2) * 2 ^ (- (e + t + t2))) as Hsplit
      by (rewrite <- Z.pow_add_r by lia; f_equal; lia).
    rewrite Hsplit in Hlt.
    apply (Z.mul_lt_mono_pos_r (2 ^ (t + t2)));
      [apply Z.pow_pos_nonneg; lia|].
    lia.
Qed.

(** A valid float below one has an exponent of at most [-53]. *)
Lemma below_one_exponent (my : positive) (ey : Z) :
  valid_binary F64.prec F64.emax (S754_finite false my ey) = true →
  F64.ltb (S754_finite false my ey) F64.one = true →
  ey ≤ -53 ∧ Z.pos my < 2 ^ 53.
Proof.
  unfold valid_binary, bounded, canonical_mantissa, fexp, emin,
    F64.prec, F64.emax.
  intros Hvalid Hlt. apply andb_prop in Hvalid as [Hcanon _].
  apply Z.eqb_eq in Hcanon.
  pose proof (digits2_pos_bounds my) as [Hlo Hhi].
  assert (Z.pos (digits2_pos my) ≤ 53) as Hd by lia.
  split.
  - unfold F64.ltb, SFltb, SFcompare, F64.one in Hlt.
    destruct (Z.compare_spec ey (-52)) as [->|Hey|Hey]; [|lia|done].
    assert (Z.pos (digits2_pos my) = 53) as Hd53 by lia.
    rewrite Hd53 in Hlo.
    rewrite Pos.compare_cont_spec in Hlt. simpl Pos.switch_Eq in Hlt.
    destruct (Pos.compare_spec my 4503599627370496) as [?|Hc|?]; try done.
    change (2 ^ (53 - 1)) with 4503599627370496 in Hlo.
    apply Pos2Z.pos_lt_pos in Hc. lia.
  - assert (2 ^ Z.pos (digits2_pos my) ≤ 2 ^ 53)
      by (apply Z.pow_le_mono_r; lia).
    lia.
Qed.

Lemma product_below (L : Z) (mx my : positive) (ex ey : Z) :
  1 ≤ L → Z.pos mx = L * 2 ^ (- ex) → -52 ≤ ex ≤ 0 →
  ey ≤ -53 → Z.pos my < 2 ^ 53 →
  Z.pos (mx * my)
  + 2 ^ (Z.max 0 (fexp F64.prec F64.emax
                    (Z.pos (digits2_pos (mx * my)) + (ex + ey))
                  - (ex + ey)) - 1)
  < L * 2 ^ (- (ex + ey)).
Proof.
  intros HL Hmx Hex Hey Hmy.
  pose proof (digits2_pos_bounds (mx * my)) as [Hlo Hhi].
  set (D := Z.pos (digits2_pos (mx * my))) in *.
  set (B := L * 2 ^ (- (ex + ey))).
  assert (B = Z.pos mx * 2 ^ (- ey)) as HB.
  { unfold B. rewrite Hmx. replace (- (ex + ey)) with (- ex + - ey) by lia.
    rewrite Z.pow_add_r by lia. ring. }
  assert (2 ^ 53 ≤ 2 ^ (- ey)) as Hpey by (apply Z.pow_le_mono_r; lia).
  assert (Z.pos (mx * my) * 2 ^ 53 ≤ (2 ^ 53 - 1) * B) as Hprod.
  { rewrite HB, Pos2Z.inj_mul. nia. }
  assert (1 ≤ B) as HB1.
  { rewrite HB. assert (0 < 2 ^ (- ey)) by lia. nia. }
  unfold fexp, emin, F64.prec, F64.emax.
  set (T := Z.max 0 (Z.max (D + (ex + ey) - 53) (3 - 1024 - 53) - (ex + ey))).
  assert (T = 0
          ∨ (1 ≤ T ∧ T = D - 53)
          ∨ (1 ≤ T ∧ T = -1074 - (ex + ey) ∧ D ≤ T + 52)) as [HT|[HT|HT]]
    by lia.
  - rewrite HT. simpl (2 ^ (0 - 1)). change (2 ^ 53) with 9007199254740992 in *.
    lia.
  - destruct HT as [HT1 HT].
    assert (2 ^ (T - 1) * 2 ^ 53 = 2 ^ (D - 1)) as Hhalf.
    { rewrite <- Z.pow_add_r by lia. f_equal. lia. }
    change (2 ^ 53) with 9007199254740992 in *. lia.
  - destruct HT as (HT1 & HT & HD).
    assert (0 < 2 ^ (T - 1)) as Hh by (apply Z.pow_pos_nonneg; lia).
    assert (2 ^ D ≤ 2 ^ (T - 1) * 2 ^ 53) as HD2.
    { rewrite <- Z.pow_add_r by lia. apply Z.pow_le_mono_r; lia. }
    assert (2 ^ (T - 1) * 2 ^ 1075 ≤ B) as HB2.
    { unfold B. replace (- (ex + ey)) with ((T - 1) + 1075) by lia.
      rewrite Z.pow_add_r by lia.
      assert (0 < 2 ^ 1075) by (apply Z.pow_pos_nonneg; lia). nia. }
    assert (2 ^ 53 + 1 ≤ 2 ^ 1075) as Hbig.
    { assert (2 ^ 54 ≤ 2 ^ 1075) by (apply Z.pow_le_mono_r; lia).
      change (2 ^ 54) with 18014398509481984 in *.
      change (2 ^ 53) with 9007199254740992. lia. }
    nia.
Qed.

(** For a length below [2^53] and a valid risk fraction in [[0, 1)], the
    index [floor (L * alpha)] exists and lies inside the list. *)
Lemma floor_index_in_range (L : Z) (alpha : float) :
  1 ≤ L < 2 ^ 53 →
  valid_binary F64.prec F64.emax alpha = true →
  in_unit alpha →
  ∃ i, floor_index L alpha = Ok i ∧ 0 ≤ i < L.
Proof.
  intros HL Hvalid Hunit. unfold floor_index, F64.of_int.
  destruct (round_Z_small_exact L HL) as (mx & ex & -> & Hex & Hmx).
  simpl. destruct Hunit as [H0 H1].
  destruct alpha as [s|[]| |[] my ey]; try done.
  - exists 0. split; [done|lia].
  - destruct (below_one_exponent my ey Hvalid H1) as [Hey Hmy].
    apply binary_round_aux_below; [lia|done|].
    apply product_below; lia.
Qed.

(** ** Indexing *)

Lemma getitem_nonneg {A} (l : list A) (i : Z) :
  0 ≤ i → getitem l i = match l !! Z.to_nat i with
                        | Some a => Ok a
                        | None => Raise IndexError
                        end.
Proof.
  intros Hi. unfold getitem.
  destruct (Z.ltb_spec i 0); [lia|]. by destruct (Z.ltb_spec i 0); [lia|].
Qed.

Lemma getitem_in_range {A} (l : list A) (i : Z) :
  0 ≤ i < len l → ∃ a, l !! Z.to_nat i = Some a ∧ getitem l i = Ok a.
Proof.
  intros [Hi Hl]. rewrite getitem_nonneg by done.
  destruct (lookup_lt_is_Some_2 l (Z.to_nat i)) as [a Ha];
    [unfold len in Hl; lia|].
  exists a. by rewrite Ha.
Qed.

(** ** Value at risk *)

Lemma value_at_risk_floor {A} (xs : list A) (alpha : float) :
  in_unit alpha →
  value_at_risk xs alpha
  = result_bind (floor_index (len xs) alpha) (getitem xs).
Proof.
  intros Halpha. unfold value_at_risk, floor_index, F64.of_int.
  destruct (F64.is_finite (F64.round_Z (len xs))); [|done]. simpl.
  rewrite to_int_floor_sign_clear; [done|].
  apply mul_sign_clear.
  - apply round_Z_pos_sign_clear. unfold len. lia.
  - by apply in_unit_sign_clear.
Qed.

Lemma value_at_risk_zero {A} (xs : list A) (s : bool) (x : A) :
  len xs < 2 ^ 53 → xs !! 0%nat = Some x →
  value_at_risk xs (S754_zero s) = Ok x.
Proof.
  intros Hlen Hx. unfold value_at_risk.
  destruct (of_int_small (len xs)) as (n & -> & Hn);
    [split; [unfold len; lia|done]|].
  simpl. destruct n as [sn| | |sn mn en]; try discriminate; simpl;
    rewrite getitem_nonneg by done; change (Z.to_nat 0) with 0%nat;
    by rewrite Hx.
Qed.

Lemma value_at_risk_ten_thousand {A} (xs : list A) :
  len xs = 10000 → value_at_risk xs F64.lit_0_05 = getitem xs 500.
Proof. intros Hlen. unfold value_at_risk. by rewrite Hlen. Qed.

(** C3. For a sorted sequence of outcomes of length at least one and a
    risk fraction [0 <= alpha < 1], the value at risk is the element at
    index [floor (L * alpha)], an index inside the sequence; a zero risk
    fraction gives the minimum of the outcomes, and 10000 outcomes with
    the fraction [0.05] give the element at index 500. *)
Theorem value_at_risk_floor_index (sorted_outcomes : list float)
    (alpha : float) :
  ascending sorted_outcomes →
  1 ≤ len sorted_outcomes →
  in_unit alpha →
  value_at_risk sorted_outcomes alpha
  = result_bind (floor_index (len sorted_outcomes) alpha)
                (getitem sorted_outcomes)
  ∧ (len sorted_outcomes < 2 ^ 53 →
     valid_binary F64.prec F64.emax alpha = true →
     ∃ i v, floor_index (len sorted_outcomes) alpha = Ok i
            ∧ 0 ≤ i < len sorted_outcomes
            ∧ sorted_outcomes !! Z.to_nat i = Some v
            ∧ value_at_risk sorted_outcomes alpha = Ok v)
  ∧ (F64.leb alpha F64.zero = true → len sorted_outcomes < 2 ^ 53 →
     ∃ v, value_at_risk sorted_outcomes alpha = Ok v
          ∧ sorted_outcomes !! 0%nat = Some v
          ∧ ∀ x, x ∈ sorted_outcomes → x = v ∨ F64.leb v x = true)
  ∧ (len sorted_outcomes = 10000 →
     ∃ v, sorted_outcomes !! 500%nat = Some v
          ∧ value_at_risk sorted_outcomes F64.lit_0_05 = Ok v).
Proof.
  intros Hsorted Hlen Halpha. split; [by apply value_at_risk_floor|].
  split; [|split].
  - intros Hsmall Hvalid.
    destruct (floor_index_in_range (len sorted_outcomes) alpha)
      as (i & Hi & Hrange); [lia|done|done|].
    destruct (getitem_in_range sorted_outcomes i Hrange) as (v & Hv & Hget).
    exists i, v. split; [done|]. split; [done|]. split; [done|].
    rewrite value_at_risk_floor by done. by rewrite Hi.
  - intros Hzero Hsmall.
    destruct sorted_outcomes as [|v rest];
      [unfold len in Hlen; simpl in Hlen; lia|].
    exists v. split; [|split; [done|]].
    + destruct Halpha as [H0 H1].
      destruct alpha as [s|[]| |[] m e]; try done.
      by apply value_at_risk_zero.
    + intros x Hx. apply elem_of_cons in Hx as [->|Hx]; [by left|right].
      apply StronglySorted_inv in Hsorted as [_ Hall].
      by eapply Forall_forall in Hall.
  - intros H10000. rewrite value_at_risk_ten_thousand by done.
    destruct (getitem_in_range sorted_outcomes 500) as (v & Hv & ->); [lia|].
    by exists v.
Qed.

(** ** Decile selection *)

Lemma result_mapM_ok {A B} (f : A → result B) (l : list A) :
  (∀ a, a ∈ l → is_ok (f a) = true) →
  ∃ bs, result_mapM f l = Ok bs ∧ Forall2 (λ a b, f a = Ok b) l bs.
Proof.
  induction l as [|a l IH]; intros Hok; simpl.
  - exists []. by split.
  - destruct (f a) as [b|e] eqn:Hb.
    + destruct IH as (bs & -> & Hbs).
      { intros a' Ha'. apply Hok. by right. }
      exists (b :: bs). split; [done|]. by constructor.
    + specialize (Hok a ltac:(left)). by rewrite Hb in Hok.
Qed.

Lemma range_lookup (n : Z) (i : nat) :
  (i < Z.to_nat n)%nat → range n !! i = Some (Z.of_nat i).
Proof.
  intros Hi. unfold range. rewrite list_lookup_fmap, lookup_seq_lt by done.
  done.
Qed.

Lemma decile_index_range (n i : Z) :
  1 ≤ n → 0 ≤ i ≤ 10 → 0 ≤ decile_index n i < n.
Proof.
  intros Hn Hi. unfold decile_index. split.
  - apply Z.div_pos; nia.
  - apply Z.div_lt_upper_bound; nia.
Qed.

(** C2, as stated, fails: with seven results the second selected pair is
    the one at index [6 * 1 / 10 = 0], while the index nearest to 0.6
    is 1. *)
Lemma eleven_results_not_rounded :
  ∃ sel, eleven_results seven_results = Ok sel
         ∧ ¬ selects_rounded seven_results sel.
Proof.
  eexists. split; [vm_compute; reflexivity|].
  intros [_ Hsel]. destruct (Hsel 1%nat ltac:(lia)) as (q & Hq & Hlook).
  unfold nearest_index in Hq.
  assert (q = 1) as -> by (change (len seven_results) with 7 in Hq; lia).
  vm_compute in Hlook. discriminate.
Qed.

(** A single result is selected eleven times. *)
Example eleven_results_singleton :
  eleven_results [(F64.hundred, 7)] = Ok (replicate 11 (F64.hundred, 7)).
Proof. vm_compute. reflexivity. Qed.

(** C2, amended. For sorted results of length [L >= 1], decile selection
    returns eleven pairs, the [i]-th being the one at index
    [floor ((L - 1) * i / 10)], which lies inside the list. *)
Theorem eleven_results_floor {A} (sorted_results : list A) :
  1 ≤ len sorted_results →
  ∃ sel, eleven_results sorted_results = Ok sel
         ∧ length sel = 11%nat
         ∧ ∀ i : nat, (i ≤ 10)%nat →
             0 ≤ decile_index (len sorted_results) (Z.of_nat i)
               < len sorted_results
             ∧ is_Some (sel !! i)
             ∧ sel !! i
               = sorted_results
                   !! Z.to_nat ((len sorted_results - 1) * Z.of_nat i / 10).
Proof.
  intros Hlen. unfold eleven_results.
  destruct (result_mapM_ok
              (λ i, getitem sorted_results
                      (decile_index (len sorted_results) i)) (range 11))
    as (sel & Hsel & Hall).
  { intros i Hi. unfold range in Hi.
    apply list_elem_of_fmap in Hi as (k & -> & Hk).
    apply elem_of_seq in Hk.
    destruct (getitem_in_range sorted_results
                (decile_index (len sorted_results) (Z.of_nat k)))
      as (a & _ & ->); [apply decile_index_range; lia|done]. }
  exists sel. split; [done|].
  pose proof (Forall2_length _ _ _ Hall) as Hlen11.
  split; [by rewrite <- Hlen11|].
  intros i Hi.
  pose proof (decile_index_range (len sorted_results) (Z.of_nat i) Hlen
                ltac:(lia)) as Hrange.
  split; [done|].
  destruct (Forall2_lookup_l _ _ _ i (Z.of_nat i) Hall) as (b & Hb & Hget).
  { apply range_lookup. simpl. lia. }
  rewrite Hb. split; [by eexists|].
  destruct (getitem_in_range sorted_results
              (decile_index (len sorted_results) (Z.of_nat i)) Hrange)
    as (a & Ha & Hget').
  rewrite Hget' in Hget. injection Hget as <-. by rewrite <- Ha.
Qed.

(** ** Seeds *)

Section EngineFacts.

Context {G : Prng}.

Lemma seeds_loop_length (count : nat) (st : prng_state) :
  length (seeds_loop count st).1 = count.
Proof.
  revert st. induction count as [|count IH]; intros st; simpl; [done|].
  destruct (prng_randint _ _ st) as [x st1].
  specialize (IH st1). destruct (seeds_loop count st1) as [xs st2].
  simpl in *. by rewrite IH.
Qed.

Lemma seeds_loop_range (count : nat) (st : prng_state) :
  Forall (λ s, 0 ≤ s ≤ 2 ^ 31) (seeds_loop count st).1.
Proof.
  revert st. induction count as [|count IH]; intros st; simpl; [done|].
  pose proof (prng_randint_range 0 (Z.shiftl 1 (32 - 1)) st) as Hx.
  destruct (prng_randint _ _ st) as [x st1].
  specialize (IH st1). destruct (seeds_loop count st1) as [xs st2].
  simpl in *. constructor; [|done].
  change (Z.shiftl 1 (32 - 1)) with (2 ^ 31) in Hx. apply Hx. lia.
Qed.

End EngineFacts.

(** C1, on the code. [seeds(count)] returns [count] integers, but the
    bound [1 << 32 - 1] is [1 << 31]: every seed lies in [[0, 2^31]], so no
    value above [2^31] is ever returned, [2^32 - 1] among them. *)
Theorem seeds_at_most_two_pow_31 `{G : Prng} (count : Z)
    (st : prng_state) :
  length (seeds count st).1 = Z.to_nat count
  ∧ Forall (λ s, 0 ≤ s ≤ 2 ^ 31) (seeds count st).1
  ∧ 2 ^ 32 - 1 ∉ (seeds count st).1.
Proof.
  unfold seeds. split; [apply seeds_loop_length|].
  pose proof (seeds_loop_range (Z.to_nat count) st) as Hall.
  split; [done|]. intros Hin.
  eapply Forall_forall in Hall; [|done]. simpl in Hall. lia.
Qed.

(** With the generator [Lcg.prng], the bound [2^31] itself is drawn. *)
Example seeds_reach_two_pow_31 :
  (@seeds Lcg.prng 1 (2 ^ 31)).1 = [2 ^ 31].
Proof. vm_compute. reflexivity. Qed.

(** ** Sums in another order *)

Lemma add_comm (x y : float) : F64.add x y = F64.add y x.
Proof.
  destruct x as [sx|sx| |sx mx ex], y as [sy|sy| |sy my ey]; try done.
  - by destruct sx, sy.
  - by destruct sx, sy.
  - unfold F64.add, SFadd. rewrite (Z.min_comm ey ex). f_equal.
    apply Z.add_comm.
Qed.

Lemma sum_two (a b : float) : sum [a; b] = sum [b; a].
Proof.
  unfold sum. simpl.
  destruct a as [[]|[]| |sa ma ea], b as [[]|[]| |sb mb eb]; try done.
  apply (add_comm (S754_finite sa ma ea) (S754_finite sb mb eb)).
Qed.

(** Up to two numbers give the same sum in either order; from three on
    the order matters, see [heavy_portfolio_values] below. *)
Lemma sum_perm_short (xs ys : list float) :
  xs ≡ₚ ys → (length xs ≤ 2)%nat → sum xs = sum ys.
Proof.
  intros Hp Hlen.
  destruct xs as [|a [|b [|c xs]]]; simpl in Hlen; try lia.
  - by apply Permutation_nil_l in Hp as ->.
  - by apply Permutation_singleton_l in Hp as ->.
  - pose proof (Permutation_length Hp) as Hl.
    destruct ys as [|a' [|b' [|c' ys]]]; try done.
    apply Permutation_length_2 in Hp as [[-> ->]|[-> ->]];
      [done|apply sum_two].
Qed.

(** ** Dicts *)

Lemma insert_fold_lookup {V} (pairs : list (string * V))
    (acc : gmap string V) (k : string) :
  NoDup pairs.*1 →
  foldl (λ d kv, <[kv.1 := kv.2]> d) acc pairs !! k
  = match (list_to_map pairs : gmap string V) !! k with
    | Some v => Some v
    | None => acc !! k
    end.
Proof.
  revert acc. induction pairs as [|[k0 v0] pairs IH]; intros acc Hnd; simpl.
  - by rewrite lookup_empty.
  - apply NoDup_cons in Hnd as [Hk0 Hnd]. rewrite IH by done.
    destruct (decide (k = k0)) as [->|Hne].
    + rewrite lookup_insert_eq.
      rewrite (not_elem_of_list_to_map_1 pairs k0) by done.
      by rewrite lookup_insert_eq.
    + by rewrite !lookup_insert_ne.
Qed.

(** Setting pairs with distinct keys one after the other gives the map of
    those pairs. *)
Lemma insert_fold_list_to_map {V} (pairs : list (string * V)) :
  NoDup pairs.*1 →
  foldl (λ d kv, <[kv.1 := kv.2]> d) (∅ : gmap string V) pairs
  = list_to_map pairs.
Proof.
  intros Hnd. apply map_eq. intros k.
  rewrite insert_fold_lookup by done. rewrite lookup_empty.
  by destruct (_ !! k).
Qed.

Section DictFacts.

Context {D : PyDict}.
Implicit Types (pf d : pydict).

Lemma items_nodup pf : NoDup (items pf).*1.
Proof. apply dict_items_nodup. Qed.

Lemma elem_of_items pf s v : (s, v) ∈ items pf ↔ entries pf !! s = Some v.
Proof.
  unfold entries. apply elem_of_list_to_map, items_nodup.
Qed.

(** A dict lists its entries, in an order of its own. *)
Lemma items_entries pf : items pf ≡ₚ map_to_list (entries pf).
Proof.
  unfold entries. symmetry. apply map_to_list_to_map, items_nodup.
Qed.

Lemma items_length pf : length (items pf) = size (entries pf).
Proof. rewrite (items_entries pf). apply length_map_to_list. Qed.

Lemma items_dom pf : list_to_set (items pf).*1 = dom (entries pf).
Proof. unfold entries. by rewrite dom_list_to_map_L. Qed.

Lemma elem_of_items_dom pf s : s ∈ (items pf).*1 ↔ s ∈ dom (entries pf).
Proof. by rewrite <- items_dom, elem_of_list_to_set. Qed.

Lemma entries_new : entries dict_new = ∅.
Proof. unfold entries, items. by rewrite dict_new_items. Qed.

Lemma entries_setitem k v d :
  entries (dict_setitem k v d) = <[k := v]> (entries d).
Proof. apply dict_setitem_entries. Qed.

Lemma entries_copy d : entries (copy d) = entries d.
Proof. apply dict_copy_entries. Qed.

Lemma entries_setitem_fold pairs d :
  entries (foldl (λ d kv, dict_setitem kv.1 kv.2 d) d pairs)
  = foldl (λ m kv, <[kv.1 := kv.2]> m) (entries d) pairs.
Proof.
  revert d. induction pairs as [|kv pairs IH]; intros d; simpl; [done|].
  by rewrite IH, entries_setitem.
Qed.

Lemma entries_dict pairs :
  entries (dict pairs) = foldl (λ m kv, <[kv.1 := kv.2]> m) ∅ pairs.
Proof. unfold dict. by rewrite entries_setitem_fold, entries_new. Qed.

(** On pairs with distinct keys [dict] holds exactly those pairs. *)
Lemma entries_dict_nodup pairs :
  NoDup pairs.*1 → entries (dict pairs) = list_to_map pairs.
Proof.
  intros Hnd. rewrite entries_dict. by apply insert_fold_list_to_map.
Qed.

Lemma entries_dict_dom pairs :
  NoDup pairs.*1 → dom (entries (dict pairs)) = list_to_set pairs.*1.
Proof.
  intros Hnd. rewrite entries_dict_nodup by done. apply dom_list_to_map_L.
Qed.

(** Two dicts with the same entries list the same pairs, each in its own
    order. *)
Lemma items_same_entries pf pf' :
  entries pf' = entries pf → items pf' ≡ₚ items pf.
Proof. intros He. by rewrite !items_entries, He. Qed.

Lemma values_same_entries pf pf' :
  entries pf' = entries pf → values pf' ≡ₚ values pf.
Proof.
  intros He. unfold values. by rewrite (items_same_entries pf pf' He).
Qed.

Lemma items_singleton pf s v : entries pf = {[ s := v ]} → items pf = [(s, v)].
Proof.
  intros He. apply Permutation_singleton_r.
  by rewrite items_entries, He, map_to_list_singleton.
Qed.

Lemma items_empty pf : entries pf = ∅ → items pf = [].
Proof.
  intros He. apply Permutation_nil_r.
  by rewrite items_entries, He, map_to_list_empty.
Qed.

Lemma values_length pf : length (values pf) = size (entries pf).
Proof. unfold values. by rewrite length_fmap, items_length. Qed.

(** The value of a dict with the entries of another: the same quantities
    summed in its own order, which gives the same float when the two are
    traversed alike or hold two securities at most. *)
Lemma portfolio_value_same_entries pf pf' :
  entries pf' = entries pf →
  (size (entries pf) ≤ 2)%nat ∨ items pf' = items pf →
  portfolio_value pf' = portfolio_value pf.
Proof.
  intros He [Hsize|Hitems]; unfold portfolio_value.
  - apply sum_perm_short; [by apply values_same_entries|].
    by rewrite values_length, He.
  - unfold values. by rewrite Hitems.
Qed.

End DictFacts.

(** The traversal of [heavy_portfolio] and of its copy under CPython 2.7:
    AAI found the slot of its hash taken by AAA and went to an earlier
    one; in the copy, which is filled in slot order, it is AAA that finds
    the slot taken. *)
Example heavy_portfolio_traversal :
  (items heavy_portfolio).*1 = ["AAD"; "AAI"; "AAA"]%string
  ∧ (items (copy heavy_portfolio)).*1 = ["AAD"; "AAA"; "AAI"]%string
  ∧ Cpython27.stored (Cpython27.ma_table heavy_portfolio)
    = items heavy_portfolio
  ∧ Cpython27.stored (Cpython27.ma_table (copy heavy_portfolio))
    = items (copy heavy_portfolio).
Proof. vm_compute. done. Qed.

(** The two orders give sums that differ: [1e16 + 2] and [1e16]. *)
Example heavy_portfolio_values :
  portfolio_value heavy_portfolio = F64.round_Z (10 ^ 16 + 2)
  ∧ portfolio_value (copy heavy_portfolio) = F64.round_Z (10 ^ 16).
Proof. vm_compute. done. Qed.

(** ** One day *)

Section SimstepFacts.

Context {G : Prng} {D : PyDict}.
Implicit Types (pf : pydict) (params : gmap string (float * float)).
Implicit Types (st : prng_state).

Lemma simstep_unfold pf params :
  simstep pf params
  = bind (mapM (revalue params) (items pf)) (λ pairs, ret (dict pairs)).
Proof. reflexivity. Qed.

Lemma revalue_missing params sv st :
  params !! sv.1 = None → revalue params sv st = Raise (KeyError sv.1).
Proof. intros H. unfold revalue, daily_return, bind. by rewrite H. Qed.

Lemma revalue_present params sv st mean stddev :
  params !! sv.1 = Some (mean, stddev) →
  ∃ x, normalvariate mean stddev st = Ok (x, advance st)
       ∧ revalue params sv st
         = Ok ((sv.1, F64.mul (F64.div (F64.add x F64.hundred)
                                 F64.hundred) sv.2), advance st).
Proof.
  intros H. unfold revalue, daily_return, bind, normalvariate, advance.
  rewrite H. destruct (prng_std_normal st) as [z st']. by eexists.
Qed.

Lemma drawn_later params st n sv kv :
  drawn params (advance st) n sv kv → drawn params st (S n) sv kv.
Proof.
  intros (Hk & mean & stddev & k & x & st1 & Hlt & Hp & Hx & Hv).
  split; [done|]. exists mean, stddev, (S k), x, st1.
  rewrite Nat.iter_succ_r. split; [lia|done].
Qed.

Lemma mapM_revalue_ok params l st pairs st' :
  mapM (revalue params) l st = Ok (pairs, st') →
  Forall2 (drawn params st (length l)) l pairs
  ∧ st' = Nat.iter (length l) advance st.
Proof.
  revert st pairs st'. induction l as [|sv l IH]; intros st pairs st'; simpl.
  - intros [= <- <-]. split; [constructor|done].
  - unfold bind at 1.
    destruct (params !! sv.1) as [[mean stddev]|] eqn:Hp.
    + destruct (revalue_present params sv st mean stddev Hp)
        as (x & Hx & ->).
      unfold bind at 1.
      destruct (mapM (revalue params) l (advance st)) as [[bs st2]|e] eqn:Hl;
        [|done].
      intros [= <- <-]. destruct (IH _ _ _ Hl) as [Hall ->].
      split; [|by rewrite <- Nat.iter_succ_r].
      constructor.
      * split; [done|]. exists mean, stddev, 0%nat, x, (advance st).
        split; [lia|done].
      * eapply Forall2_impl; [done|]. intros ??. apply drawn_later.
    + by rewrite revalue_missing.
Qed.

Lemma mapM_revalue_covered params l st :
  Forall (λ sv, is_Some (params !! sv.1)) l →
  ∃ pairs st', mapM (revalue params) l st = Ok (pairs, st').
Proof.
  revert st. induction l as [|sv l IH]; intros st Hall; simpl.
  - by eexists _, _.
  - apply Forall_cons in Hall as [[[mean stddev] Hp] Hall].
    destruct (revalue_present params sv st mean stddev Hp)
      as (x & _ & Hrun).
    destruct (IH (advance st) Hall) as (bs & st2 & Hl).
    unfold bind. rewrite Hrun, Hl. by eexists _, _.
Qed.

Lemma mapM_revalue_raise params l st e :
  mapM (revalue params) l st = Raise e →
  ∃ sv, sv ∈ l ∧ params !! sv.1 = None ∧ e = KeyError sv.1.
Proof.
  revert st. induction l as [|sv l IH]; intros st; simpl; [done|].
  unfold bind at 1.
  destruct (params !! sv.1) as [[mean stddev]|] eqn:Hp.
  - destruct (revalue_present params sv st mean stddev Hp)
      as (x & _ & ->).
    unfold bind at 1.
    destruct (mapM (revalue params) l (advance st)) as [[bs st2]|e'] eqn:Hl;
      [done|].
    intros [= <-]. destruct (IH _ Hl) as (sv' & Hin & Hnone & ->).
    exists sv'. split; [by right|done].
  - rewrite revalue_missing by done. intros [= <-].
    exists sv. split; [by left|done].
Qed.

Lemma drawn_keys params st n l pairs :
  Forall2 (drawn params st n) l pairs → pairs.*1 = l.*1.
Proof.
  induction 1 as [|sv kv l' pairs' [Hk _] _ IH]; simpl; [done|].
  by f_equal.
Qed.

(** What a successful day does. *)
Lemma simstep_ok_inv pf params st pf' st' :
  simstep pf params st = Ok (pf', st') →
  dom (entries pf') = dom (entries pf)
  ∧ covers params pf
  ∧ st' = Nat.iter (size (entries pf)) advance st
  ∧ ∀ s v, entries pf !! s = Some v →
      ∃ v', entries pf' !! s = Some v'
            ∧ drawn params st (size (entries pf)) (s, v) (s, v').
Proof.
  rewrite simstep_unfold. unfold bind, ret.
  destruct (mapM (revalue params) (items pf) st) as [[pairs st1]|e] eqn:Hm;
    [|done].
  intros [= <- <-]. apply mapM_revalue_ok in Hm as [Hm ->].
  rewrite items_length in Hm.
  pose proof (drawn_keys _ _ _ _ _ Hm) as Hkeys.
  assert (NoDup pairs.*1) as Hnd by (rewrite Hkeys; apply items_nodup).
  split; [|split; [|split]].
  - rewrite entries_dict_dom by done. rewrite Hkeys. apply items_dom.
  - intros s Hs. apply elem_of_dom in Hs as [v Hv].
    apply elem_of_items in Hv.
    apply list_elem_of_lookup in Hv as [i Hi].
    destruct (Forall2_lookup_l _ _ _ _ _ Hm Hi)
      as (kv & _ & _ & mean & stddev & k & x & st1 & _ & Hp & _).
    apply elem_of_dom. by eexists.
  - by rewrite items_length.
  - intros s v Hv. apply elem_of_items in Hv.
    apply list_elem_of_lookup in Hv as [i Hi].
    destruct (Forall2_lookup_l _ _ _ _ _ Hm Hi) as ([k v'] & Hkv & Hd).
    pose proof Hd as [Hk _]. simpl in Hk. subst k.
    exists v'. split; [|done].
    rewrite entries_dict_nodup by done.
    apply elem_of_list_to_map_1; [done|].
    apply list_elem_of_lookup. by exists i.
Qed.

Lemma simstep_covered pf params st :
  covers params pf → ∃ pf' st', simstep pf params st = Ok (pf', st').
Proof.
  intros Hc. rewrite simstep_unfold. unfold bind, ret.
  destruct (mapM_revalue_covered params (items pf) st) as (pairs & st1 & ->).
  - apply Forall_forall. intros [s v] Hin. simpl.
    apply elem_of_items in Hin.
    apply elem_of_dom, Hc, elem_of_dom. by eexists.
  - by eexists _, _.
Qed.

Lemma simstep_raise pf params st e :
  simstep pf params st = Raise e →
  ∃ s, s ∈ dom (entries pf) ∧ params !! s = None ∧ e = KeyError s.
Proof.
  rewrite simstep_unfold. unfold bind, ret.
  destruct (mapM (revalue params) (items pf) st) as [[pairs st1]|e'] eqn:Hm;
    [done|].
  intros [= <-]. apply mapM_revalue_raise in Hm as ([s v] & Hin & Hp & ->).
  exists s. split; [|done].
  apply elem_of_items in Hin. apply elem_of_dom. by eexists.
Qed.

(** A day raises exactly when some held symbol has no profile. *)
Lemma simstep_uncovered pf params st :
  ¬ covers params pf →
  ∃ s, s ∈ dom (entries pf) ∧ params !! s = None
       ∧ simstep pf params st = Raise (KeyError s).
Proof.
  intros Hnc. destruct (simstep pf params st) as [[pf' st']|e] eqn:Hs.
  - apply simstep_ok_inv in Hs as (_ & Hc & _). done.
  - destruct (simstep_raise _ _ _ _ Hs) as (s & Hin & Hp & ->).
    by exists s.
Qed.

End SimstepFacts.

(** ** Trials *)

Section TrialFacts.

Context {G : Prng} {D : PyDict}.
Implicit Types (pf : pydict) (params : gmap string (float * float)).
Implicit Types (st : prng_state).

Lemma simulate_loop_ok_dom n pf params st pf' st' :
  simulate_loop n pf params st = Ok (pf', st') →
  dom (entries pf') = dom (entries pf).
Proof.
  revert pf st. induction n as [|n IH]; intros pf st; simpl.
  - by intros [= <- <-].
  - unfold bind.
    destruct (simstep pf params st) as [[pf1 st1]|e] eqn:Hs; [|done].
    intros Hl. apply IH in Hl. apply simstep_ok_inv in Hs as (Hd & _).
    congruence.
Qed.

Lemma simulate_loop_covered n pf params st :
  covers params pf →
  ∃ pf' st', simulate_loop n pf params st = Ok (pf', st').
Proof.
  revert pf st. induction n as [|n IH]; intros pf st Hc; simpl.
  - by eexists _, _.
  - destruct (simstep_covered pf params st Hc) as (pf1 & st1 & Hs).
    unfold bind. rewrite Hs. apply IH.
    apply simstep_ok_inv in Hs as (Hd & _). unfold covers. by rewrite Hd.
Qed.

Lemma simulate_loop_uncovered n pf params st :
  ¬ covers params pf → (0 < n)%nat →
  ∃ s, s ∈ dom (entries pf) ∧ params !! s = None
       ∧ simulate_loop n pf params st = Raise (KeyError s).
Proof.
  intros Hnc Hn. destruct n as [|n]; [lia|]. simpl.
  destruct (simstep_uncovered pf params st Hnc) as (s & Hin & Hp & Hs).
  exists s. unfold bind. by rewrite Hs.
Qed.

Lemma missing_not_covers pf params s :
  s ∈ dom (entries pf) → params !! s = None → ¬ covers params pf.
Proof.
  intros Hin Hp Hc. apply Hc in Hin. apply elem_of_dom in Hin as [x Hx].
  congruence.
Qed.

(** The history loop runs the same days as the plain loop, and records
    the value of the portfolio after each of them. *)
Lemma history_loop_simulate_loop n pf params values st :
  match simulate_loop n pf params st,
        history_loop n pf params values st with
  | Ok (pf', st1), Ok (vs, st2) =>
      st1 = st2
      ∧ ∃ trace, vs = values ++ trace
                 ∧ length trace = n
                 ∧ last (portfolio_value pf :: trace)
                   = Some (portfolio_value pf')
  | Raise e1, Raise e2 => e1 = e2
  | _, _ => False
  end.
Proof.
  revert pf values st. induction n as [|n IH]; intros pf values st; simpl.
  - split; [done|]. exists []. by rewrite app_nil_r.
  - unfold bind.
    destruct (simstep pf params st) as [[pf1 st1]|e] eqn:Hs; [|done].
    specialize (IH pf1 (values ++ [portfolio_value pf1]) st1).
    destruct (simulate_loop n pf1 params st1) as [[pf' st2]|e1],
      (history_loop n pf1 params _ st1) as [[vs st3]|e2]; try done.
    destruct IH as (-> & trace & -> & Hlen & Hlast). split; [done|].
    exists (portfolio_value pf1 :: trace).
    split; [by rewrite <- app_assoc|]. split; [simpl; lia|done].
Qed.

End TrialFacts.

Lemma getitem_last {A} (l : list A) (a : A) :
  last l = Some a → getitem l (-1) = Ok a.
Proof.
  intros Hl. rewrite last_lookup in Hl. unfold getitem, len.
  destruct l as [|a0 l]; [done|]. simpl length in *.
  change (-1 <? 0) with true. cbv iota.
  destruct (Z.ltb_spec (Z.of_nat (S (length l)) + -1) 0); [lia|].
  replace (Z.to_nat (Z.of_nat (S (length l)) + -1)) with (pred (S (length l)))
    by lia.
  by rewrite Hl.
Qed.

(** C4, as stated, fails under the interpreter of the notebook: the first
    entry of the history of [heavy_portfolio] is the value of the trial's
    copy, [1e16], and the value of the portfolio itself is [1e16 + 2]. *)
Lemma history_first_not_portfolio_value :
  ∃ vs, @simulate_with_history Lcg.prng Cpython27.dict 0 heavy_portfolio ∅ 0
        = Ok vs
        ∧ len vs = 0 + 1
        ∧ getitem vs 0 ≠ Ok (portfolio_value heavy_portfolio).
Proof.
  eexists. split; [vm_compute; reflexivity|].
  split; [reflexivity|]. vm_compute. discriminate.
Qed.

(** C4, amended. The history of a trial has one value per day and one for
    the start.  It begins with the value of the trial's own copy of the
    portfolio handed in: the sum of the same quantities in the order in
    which the copy is traversed, which is the value of the portfolio
    itself when the copy is traversed like its original or at most two
    securities are held.  It ends with the value of the portfolio that
    [simulate] returns for the same arguments.  The two calls raise
    together, and neither raises when every held symbol has a profile or
    no day is simulated. *)
Theorem history_final_consistency `{G : Prng} `{D : PyDict} (seed : Z)
    (pf : pydict) (params : gmap string (float * float)) (N : Z) :
  0 ≤ N →
  (∀ vs, simulate_with_history seed pf params N = Ok vs →
     len vs = N + 1
     ∧ getitem vs 0 = Ok (portfolio_value (copy pf))
     ∧ ∃ pf', simulate seed pf params N = Ok pf'
              ∧ getitem vs (-1) = Ok (portfolio_value pf'))
  ∧ values (copy pf) ≡ₚ values pf
  ∧ ((size (entries pf) ≤ 2)%nat ∨ items (copy pf) = items pf →
     portfolio_value (copy pf) = portfolio_value pf)
  ∧ (∀ e, simulate_with_history seed pf params N = Raise e
          ↔ simulate seed pf params N = Raise e)
  ∧ (covers params pf ∨ N = 0 →
     is_ok (simulate_with_history seed pf params N) = true).
Proof.
  intros HN. unfold simulate_with_history, simulate.
  pose proof (history_loop_simulate_loop (Z.to_nat N) (copy pf) params
                [portfolio_value (copy pf)] (prng_seed seed)) as Hrel.
  split; [|split; [|split; [|split]]].
  - intros vs Hvs.
    destruct (simulate_loop _ (copy pf) params _) as [[pf' st1]|e1],
      (history_loop _ (copy pf) params _ _) as [[vs' st2]|e2]; try done.
    destruct Hrel as (_ & trace & -> & Hlen & Hlast).
    injection Hvs as <-. split; [|split].
    + unfold len. simpl. lia.
    + done.
    + exists pf'. split; [done|]. by apply getitem_last.
  - apply values_same_entries, entries_copy.
  - apply portfolio_value_same_entries, entries_copy.
  - intros e.
    destruct (simulate_loop _ (copy pf) params _) as [[pf' st1]|e1],
      (history_loop _ (copy pf) params _ _) as [[vs' st2]|e2]; try done;
      simpl; split; intros ?; by simplify_eq.
  - intros Hc.
    assert (∃ pf' st', simulate_loop (Z.to_nat N) (copy pf) params
                         (prng_seed seed) = Ok (pf', st'))
      as (pf' & st' & Hok).
    { destruct Hc as [Hc| ->]; [|by eexists _, _].
      apply simulate_loop_covered. unfold covers. by rewrite entries_copy. }
    rewrite Hok in Hrel.
    by destruct (history_loop _ (copy pf) params _ _) as [[vs' st2]|e2].
Qed.

(** C8. A held symbol without a profile makes a run of one day or more
    raise [KeyError] for such a symbol, with no portfolio returned; a run
    of no days, or one in which every held symbol has a profile, does not
    raise. *)
Theorem simulate_missing_profile `{G : Prng} `{D : PyDict} (seed : Z)
    (pf : pydict) (params : gmap string (float * float)) (days : Z) :
  ((∃ s, s ∈ dom (entries pf) ∧ params !! s = None) → 1 ≤ days →
   ∃ s, s ∈ dom (entries pf) ∧ params !! s = None
        ∧ simulate seed pf params days = Raise (KeyError s))
  ∧ (days = 0 → simulate seed pf params days = Ok (copy pf))
  ∧ (covers params pf → ∃ pf', simulate seed pf params days = Ok pf').
Proof.
  unfold simulate. split; [|split].
  - intros (s & Hin & Hp) Hdays.
    rewrite <- (entries_copy pf) in Hin.
    destruct (simulate_loop_uncovered (Z.to_nat days) (copy pf) params
                (prng_seed seed)
                (missing_not_covers (copy pf) params s Hin Hp)
                ltac:(lia)) as (s' & Hin' & Hp' & ->).
    rewrite entries_copy in Hin'. by exists s'.
  - by intros ->.
  - intros Hc.
    destruct (simulate_loop_covered (Z.to_nat days) (copy pf) params
                (prng_seed seed)) as (pf' & st' & ->);
      [unfold covers; by rewrite entries_copy|].
    by exists pf'.
Qed.

(** C10. A day keeps the symbols of the portfolio: when every held symbol
    has a profile, [simstep] returns a portfolio over exactly the symbols
    of its argument, each listed once, and so does [simulate] for every
    number of days. *)
Theorem simstep_preserves_symbols `{G : Prng} `{D : PyDict}
    (pf : pydict) (params : gmap string (float * float))
    (st : prng_state) :
  covers params pf →
  (∃ pf' st', simstep pf params st = Ok (pf', st')
              ∧ dom (entries pf') = dom (entries pf)
              ∧ size (entries pf') = size (entries pf)
              ∧ length (items pf') = length (items pf)
              ∧ NoDup (items pf').*1
              ∧ ∀ s, s ∈ (items pf').*1 ↔ s ∈ (items pf).*1)
  ∧ ∀ seed days, ∃ pf', simulate seed pf params days = Ok pf'
                        ∧ dom (entries pf') = dom (entries pf)
                        ∧ NoDup (items pf').*1.
Proof.
  intros Hc. split.
  - destruct (simstep_covered pf params st Hc) as (pf' & st' & Hs).
    exists pf', st'. split; [done|].
    apply simstep_ok_inv in Hs as (Hd & _ & _).
    split; [done|].
    assert (size (entries pf') = size (entries pf)) as Hsize
      by (by rewrite <- !size_dom, Hd).
    split; [done|]. split; [by rewrite !items_length|].
    split; [apply items_nodup|].
    intros s. by rewrite !elem_of_items_dom, Hd.
  - intros seed days. unfold simulate.
    destruct (simulate_loop_covered (Z.to_nat days) (copy pf) params
                (prng_seed seed)) as (pf' & st' & Hl);
      [unfold covers; by rewrite entries_copy|].
    rewrite Hl. exists pf'. split; [done|]. split; [|apply items_nodup].
    rewrite <- (entries_copy pf). by eapply simulate_loop_ok_dom.
Qed.

(** ** Scenarios with no spread *)

Section ScenarioFacts.

Context {G : Prng} {D : PyDict}.
Implicit Types (pf : pydict).

(** One security whose profile has deviation zero: the day multiplies
    its quantity by [(mean + 100) / 100], whatever is drawn. *)
Lemma simstep_no_spread pf (s : string) (v mean : float) (st : prng_state) :
  match mean with
  | S754_finite _ _ _ | S754_zero false => True
  | _ => False
  end →
  entries pf = {[ s := v ]} →
  ∃ pf',
    simstep pf {[ s := (mean, F64.zero) ]} st
    = Ok (pf', (prng_std_normal st).2)
    ∧ entries pf'
      = {[ s := F64.mul (F64.div (F64.add mean F64.hundred) F64.hundred) v ]}.
Proof.
  intros Hmean He. rewrite simstep_unfold.
  rewrite (items_singleton pf s v He). simpl.
  unfold bind, revalue, bind, daily_return, bind, normalvariate, ret. simpl.
  rewrite lookup_singleton_eq.
  pose proof (prng_std_normal_finite st) as Hz.
  destruct (prng_std_normal st) as [z st']. simpl in *.
  rewrite add_mul_zero_spread by done.
  eexists. split; [done|].
  rewrite entries_dict. simpl. by rewrite insert_empty.
Qed.

Lemma portfolio_value_singleton pf (s : string) (v : float) :
  entries pf = {[ s := v ]} → portfolio_value pf = F64.add F64.zero v.
Proof.
  intros He. unfold portfolio_value, values.
  by rewrite (items_singleton pf s v He).
Qed.

Lemma flat_day pf (st : prng_state) :
  entries pf = one_security →
  ∃ pf', simstep pf flat_profile st = Ok (pf', (prng_std_normal st).2)
         ∧ entries pf' = one_security.
Proof.
  intros He. unfold flat_profile.
  destruct (simstep_no_spread pf _ _ F64.zero st I He) as (pf' & Hs & He').
  exists pf'. split; [done|]. by rewrite He'.
Qed.

Lemma rising_day pf (st : prng_state) :
  entries pf = one_security →
  ∃ pf', simstep pf rising_profile st = Ok (pf', (prng_std_normal st).2)
         ∧ entries pf' = {[ "AAA"%string := F64.hundred_one ]}.
Proof.
  intros He. unfold rising_profile.
  destruct (simstep_no_spread pf _ _ F64.one st I He) as (pf' & Hs & He').
  exists pf'. split; [done|]. by rewrite He'.
Qed.

Lemma flat_loop (n : nat) pf (st : prng_state) :
  entries pf = one_security →
  ∃ pf' st', simulate_loop n pf flat_profile st = Ok (pf', st')
             ∧ entries pf' = one_security.
Proof.
  revert pf st. induction n as [|n IH]; intros pf st He; simpl.
  - by eexists _, _.
  - destruct (flat_day pf st He) as (pf1 & Hday & He1).
    unfold bind. rewrite Hday. by apply IH.
Qed.

End ScenarioFacts.

(** C5. A day draws once from the trial's generator for every held
    security: the security gets a value [x] from [normalvariate] with the
    mean and deviation of its profile, and its quantity is multiplied by
    [(x + 100) / 100].  So a holding of 100.0 with profile (1.0, 0.0) is
    worth exactly 101.0 after one day, and with profile (0.0, 0.0) exactly
    100.0 after five days, for every seed. *)
Theorem simstep_scales_by_draw `{G : Prng} `{D : PyDict} :
  (∀ (pf : pydict) (params : gmap string (float * float))
     (st : prng_state),
     covers params pf →
     ∃ pf' st', simstep pf params st = Ok (pf', st')
       ∧ st' = Nat.iter (size (entries pf)) advance st
       ∧ ∀ s v, entries pf !! s = Some v →
           ∃ mean stddev k x st1,
             (k < size (entries pf))%nat
             ∧ params !! s = Some (mean, stddev)
             ∧ normalvariate mean stddev (Nat.iter k advance st) = Ok (x, st1)
             ∧ entries pf' !! s
               = Some (F64.mul (F64.div (F64.add x F64.hundred) F64.hundred) v))
  ∧ (∀ seed (pf : pydict),
       entries pf = one_security →
       ∃ pf', simulate seed pf rising_profile 1 = Ok pf'
              ∧ entries pf' = {[ "AAA"%string := F64.hundred_one ]}
              ∧ result_map portfolio_value
                  (simulate seed pf rising_profile 1)
                = Ok F64.hundred_one)
  ∧ (∀ seed (pf : pydict),
       entries pf = one_security →
       ∃ pf', simulate seed pf flat_profile 5 = Ok pf'
              ∧ entries pf' = one_security
              ∧ result_map portfolio_value
                  (simulate seed pf flat_profile 5)
                = Ok F64.hundred).
Proof.
  split; [|split].
  - intros pf params st Hc.
    destruct (simstep_covered pf params st Hc) as (pf' & st' & Hs).
    exists pf', st'. split; [done|].
    apply simstep_ok_inv in Hs as (_ & _ & Hst & Hdrawn).
    split; [done|]. intros s v Hv.
    destruct (Hdrawn s v Hv)
      as (v' & Hv' & _ & mean & stddev & k & x & st1 & Hk & Hp & Hx & Heq).
    simpl in Hp, Heq. subst v'. by exists mean, stddev, k, x, st1.
  - intros seed pf He. rewrite <- (entries_copy pf) in He.
    destruct (rising_day (copy pf) (prng_seed seed) He) as (pf' & Hday & He').
    assert (simulate seed pf rising_profile 1 = Ok pf') as ->.
    { unfold simulate. simpl. unfold bind. by rewrite Hday. }
    exists pf'. split; [done|]. split; [done|]. simpl.
    by rewrite (portfolio_value_singleton pf' _ _ He').
  - intros seed pf He. rewrite <- (entries_copy pf) in He.
    destruct (flat_loop (Z.to_nat 5) (copy pf) (prng_seed seed) He)
      as (pf' & st' & Hloop & He').
    assert (simulate seed pf flat_profile 5 = Ok pf') as ->.
    { unfold simulate. by rewrite Hloop. }
    exists pf'. split; [done|]. split; [done|]. simpl.
    by rewrite (portfolio_value_singleton pf' _ _ He').
Qed.

(** ** The store *)

Section StoreFacts.

Context {G : Prng} {D : PyDict}.
Implicit Types (w : Store.world) (st : prng_state).
Implicit Types (pf : pydict) (params : gmap string (float * float)).

Lemma set_rng_same p st w :
  Store.rngs w !! p = Some st → Store.set_rng p st w = w.
Proof.
  intros H. destruct w as [ds rs us]. unfold Store.set_rng. simpl in *.
  by rewrite list_insert_id.
Qed.

Lemma set_rng_lookup p st st' w :
  Store.rngs w !! p = Some st →
  Store.rngs (Store.set_rng p st' w) !! p = Some st'.
Proof.
  intros H. simpl. apply list_lookup_insert_eq. by eapply lookup_lt_Some.
Qed.

Lemma set_rng_twice p st1 st2 w :
  Store.set_rng p st2 (Store.set_rng p st1 w) = Store.set_rng p st2 w.
Proof. unfold Store.set_rng. simpl. by rewrite list_insert_insert_eq. Qed.

Lemma advances_refl p st w : Store.rngs w !! p = Some st → advances p w w.
Proof.
  intros H. exists [], st. rewrite app_nil_r.
  rewrite list_insert_id by done. by destruct w.
Qed.

Lemma advances_set_rng p st w : advances p w (Store.set_rng p st w).
Proof. exists [], st. by rewrite app_nil_r. Qed.

Lemma advances_trans p w1 w2 w3 :
  advances p w1 w2 → advances p w2 w3 → advances p w1 w3.
Proof.
  intros (e1 & s1 & ->) (e2 & s2 & ->). simpl.
  exists (e1 ++ e2), s2. by rewrite app_assoc, list_insert_insert_eq.
Qed.

Lemma store_revalue_run params p sv w st :
  Store.rngs w !! p = Some st →
  store_revalue params p sv w
  = match revalue params sv st with
    | Ok (kv, st') => (Ok kv, Store.set_rng p st' w)
    | Raise e => (Raise e, w)
    end.
Proof.
  intros Hp. unfold store_revalue, revalue, Store.daily_return,
    daily_return, Store.bind, bind, Store.normalvariate, normalvariate,
    Store.raise, raise.
  destruct (params !! sv.1) as [[mean stddev]|]; [|done].
  rewrite Hp. by destruct (prng_std_normal st) as [z st'].
Qed.

Lemma store_mapM_run params p l w st :
  Store.rngs w !! p = Some st →
  ∃ st',
    Store.mapM (store_revalue params p) l w
    = (result_map fst (mapM (revalue params) l st), Store.set_rng p st' w)
    ∧ ∀ pairs st1, mapM (revalue params) l st = Ok (pairs, st1) → st' = st1.
Proof.
  revert w st. induction l as [|sv l IH]; intros w st Hp; simpl.
  - exists st. unfold Store.ret, ret. simpl.
    rewrite set_rng_same by done. split; [done|]. by intros ?? [= _ <-].
  - unfold Store.bind at 1, bind at 1 3.
    rewrite (store_revalue_run params p sv w st Hp).
    destruct (revalue params sv st) as [[kv st1]|e].
    + destruct (IH (Store.set_rng p st1 w) st1) as (st' & Hrun & Hst);
        [by eapply set_rng_lookup|].
      unfold Store.bind, bind. rewrite Hrun, set_rng_twice.
      exists st'. destruct (mapM (revalue params) l st1) as [[bs st2]|e];
        simpl; (split; [done|]); [|done].
      intros ?? [= _ <-]. by eapply Hst.
    + exists st. rewrite set_rng_same by done. by split.
Qed.

End StoreFacts.

Section StoreRuns.

Context {G : Prng} {D : PyDict}.
Implicit Types (w : Store.world) (st : prng_state).
Implicit Types (pf : pydict) (params : gmap string (float * float)).

Lemma store_portfolio_value_run r pf w :
  Store.dicts w !! r = Some pf →
  Store.portfolio_value r w = (Ok (portfolio_value pf), w).
Proof.
  intros Hr. unfold Store.portfolio_value, Store.bind, Store.read_dict.
  by rewrite Hr.
Qed.

Lemma store_simstep_unfold r pf params p w :
  Store.dicts w !! r = Some pf →
  Store.simstep r params p w
  = Store.bind (Store.mapM (store_revalue params p) (items pf))
      Store.dict w.
Proof.
  intros Hr.
  unfold Store.simstep, Store.items, Store.bind, Store.read_dict, Store.ret.
  by rewrite Hr.
Qed.

(** [Store.simstep] computes what [simstep] computes, puts it in a new
    dict, and advances the generator it was given. *)
Lemma store_simstep_run r pf params p w st :
  Store.dicts w !! r = Some pf → Store.rngs w !! p = Some st →
  ∃ w', advances p w w'
    ∧ match simstep pf params st with
      | Ok (pf', st') =>
          ∃ r', Store.simstep r params p w = (Ok r', w')
                ∧ Store.dicts w' !! r' = Some pf'
                ∧ Store.rngs w' !! p = Some st'
                ∧ (length (Store.dicts w) ≤ r')%nat
      | Raise e => Store.simstep r params p w = (Raise e, w')
      end.
Proof.
  intros Hr Hp. rewrite simstep_unfold.
  rewrite (store_simstep_unfold r pf params p w Hr).
  destruct (store_mapM_run params p (items pf) w st Hp)
    as (st' & Hrun & Hst).
  unfold Store.bind, bind. rewrite Hrun.
  destruct (mapM (revalue params) (items pf) st)
    as [[pairs st1]|e]; simpl.
  - specialize (Hst pairs st1 eq_refl). subst st'.
    eexists. split; [|eexists; split; [reflexivity|split; [|split]]].
    + exists [dict pairs], st1. reflexivity.
    + simpl. apply list_lookup_middle. done.
    + simpl. apply list_lookup_insert_eq. by eapply lookup_lt_Some.
    + done.
  - eexists. split; [|reflexivity]. apply advances_set_rng.
Qed.

Lemma store_simulate_loop_run n r pf params p w st :
  Store.dicts w !! r = Some pf → Store.rngs w !! p = Some st →
  ∃ w', advances p w w'
    ∧ match simulate_loop n pf params st with
      | Ok (pf', st') =>
          ∃ r', Store.simulate_loop n r params p w = (Ok r', w')
                ∧ Store.dicts w' !! r' = Some pf'
                ∧ (r' = r ∨ (length (Store.dicts w) ≤ r')%nat)
      | Raise e => Store.simulate_loop n r params p w = (Raise e, w')
      end.
Proof.
  revert r pf w st. induction n as [|n IH]; intros r pf w st Hr Hp; simpl.
  - exists w. split; [by eapply advances_refl|]. exists r.
    by repeat split; [|left].
  - destruct (store_simstep_run r pf params p w st Hr Hp) as (w1 & Hadv & Hs).
    unfold Store.bind, bind.
    destruct (simstep pf params st) as [[pf1 st1]|e].
    + destruct Hs as (r1 & -> & Hr1 & Hp1 & Hfresh).
      destruct (IH r1 pf1 w1 st1 Hr1 Hp1) as (w' & Hadv' & Hl).
      exists w'. split; [by eapply advances_trans|].
      destruct (simulate_loop n pf1 params st1) as [[pf' st']|e]; [|done].
      destruct Hl as (r' & Hrun & Hr' & Hor). exists r'.
      split; [done|]. split; [done|]. right.
      destruct Hadv as (extra & s1 & ->). simpl in Hor.
      rewrite length_app in Hor. lia.
    + rewrite Hs. by exists w1.
Qed.

Lemma store_history_loop_run n r pf params p values w st :
  Store.dicts w !! r = Some pf → Store.rngs w !! p = Some st →
  ∃ w', advances p w w'
    ∧ Store.history_loop n r params p values w
      = (result_map fst (history_loop n pf params values st), w').
Proof.
  revert r pf values w st.
  induction n as [|n IH]; intros r pf values w st Hr Hp; simpl.
  - exists w. split; [by eapply advances_refl|done].
  - destruct (store_simstep_run r pf params p w st Hr Hp) as (w1 & Hadv & Hs).
    unfold Store.bind, bind.
    destruct (simstep pf params st) as [[pf1 st1]|e].
    + destruct Hs as (r1 & -> & Hr1 & Hp1 & _).
      rewrite (store_portfolio_value_run r1 pf1 w1 Hr1).
      destruct (IH r1 pf1 (values ++ [portfolio_value pf1]) w1 st1 Hr1 Hp1)
        as (w' & Hadv' & ->).
      exists w'. split; [by eapply advances_trans|done].
    + rewrite Hs. by exists w1.
Qed.

Lemma trial_start_advances a pf w w' :
  advances (length (Store.rngs w)) (trial_start a pf w) w' →
  trial_frame w w'.
Proof.
  intros (extra & st' & ->). simpl.
  exists ([copy pf] ++ extra), st'. rewrite <- app_assoc. f_equal.
  rewrite insert_app_r_alt by lia. by rewrite Nat.sub_diag.
Qed.

Lemma store_simulate_prefix a r pf params days w :
  Store.dicts w !! r = Some pf →
  Store.simulate a r params days w
  = Store.simulate_loop (Z.to_nat days) (length (Store.dicts w)) params
      (length (Store.rngs w)) (trial_start a pf w).
Proof.
  intros Hr.
  unfold Store.simulate, Store.bind, Store.Random, Store.seed, Store.copy,
    Store.bind, Store.read_dict, Store.alloc_dict. simpl.
  rewrite list_lookup_middle by done. simpl. rewrite Hr.
  unfold trial_start, Store.set_rng. simpl.
  rewrite insert_app_r_alt by lia. by rewrite Nat.sub_diag.
Qed.

Lemma store_history_prefix a r pf params days w :
  Store.dicts w !! r = Some pf →
  Store.simulate_with_history a r params days w
  = Store.history_loop (Z.to_nat days) (length (Store.dicts w)) params
      (length (Store.rngs w)) [portfolio_value (copy pf)]
      (trial_start a pf w).
Proof.
  intros Hr.
  unfold Store.simulate_with_history, Store.bind, Store.Random, Store.seed,
    Store.copy, Store.bind, Store.read_dict, Store.alloc_dict,
    Store.portfolio_value, Store.bind, Store.read_dict, Store.ret. simpl.
  rewrite list_lookup_middle by done. simpl. rewrite Hr. simpl.
  rewrite list_lookup_middle by done.
  unfold trial_start, Store.set_rng. simpl.
  rewrite insert_app_r_alt by lia. by rewrite Nat.sub_diag.
Qed.

(** [Store.simulate] returns the address of a dict; that dict is the one
    [simulate] computes from the dict at the address it is given. *)
Lemma store_simulate_run a r pf params days w :
  Store.dicts w !! r = Some pf →
  trial_frame w (Store.simulate a r params days w).2
  ∧ Store.outcome (Store.simulate a r params days w)
    = simulate a pf params days
  ∧ ∀ r', (Store.simulate a r params days w).1 = Ok r' →
          (length (Store.dicts w) ≤ r')%nat.
Proof.
  intros Hr. rewrite (store_simulate_prefix a r pf params days w Hr).
  destruct (store_simulate_loop_run (Z.to_nat days)
              (length (Store.dicts w)) (copy pf) params
              (length (Store.rngs w)) (trial_start a pf w) (prng_seed a))
    as (w' & Hadv & Hrun).
  { simpl. by apply list_lookup_middle. }
  { simpl. by apply list_lookup_middle. }
  unfold simulate.
  destruct (simulate_loop (Z.to_nat days) (copy pf) params (prng_seed a))
    as [[pf' st']|e].
  - destruct Hrun as (r' & -> & Hr' & Hor). simpl. rewrite Hr'.
    split; [by eapply trial_start_advances|]. split; [done|].
    intros ? [= <-]. simpl in Hor. rewrite length_app in Hor. lia.
  - rewrite Hrun. simpl. split; [by eapply trial_start_advances|done].
Qed.

Lemma store_history_run a r pf params days w :
  Store.dicts w !! r = Some pf →
  trial_frame w (Store.simulate_with_history a r params days w).2
  ∧ (Store.simulate_with_history a r params days w).1
    = simulate_with_history a pf params days.
Proof.
  intros Hr. rewrite (store_history_prefix a r pf params days w Hr).
  destruct (store_history_loop_run (Z.to_nat days)
              (length (Store.dicts w)) (copy pf) params
              (length (Store.rngs w)) [portfolio_value (copy pf)]
              (trial_start a pf w) (prng_seed a))
    as (w' & Hadv & ->).
  { simpl. by apply list_lookup_middle. }
  { simpl. by apply list_lookup_middle. }
  simpl. split; [by eapply trial_start_advances|done].
Qed.

Lemma trial_frame_dict w w' r pf :
  trial_frame w w' → Store.dicts w !! r = Some pf →
  Store.dicts w' !! r = Some pf.
Proof. intros (ds & st' & ->) H. simpl. by apply lookup_app_l_Some. Qed.

Lemma trial_frame_rng w w' q st :
  trial_frame w w' → Store.rngs w !! q = Some st →
  Store.rngs w' !! q = Some st.
Proof. intros (ds & st' & ->) H. simpl. by apply lookup_app_l_Some. Qed.

End StoreRuns.

(** C7, as stated, fails under the interpreter of the notebook: a run of
    no days on [heavy_portfolio] returns a dict with the same entries, but
    its value is [1e16], not the [1e16 + 2] of the portfolio handed in. *)
Lemma zero_days_value_changes :
  ∃ pf', @simulate Lcg.prng Cpython27.dict 0 heavy_portfolio ∅ 0 = Ok pf'
         ∧ entries pf' = entries heavy_portfolio
         ∧ portfolio_value pf' ≠ portfolio_value heavy_portfolio.
Proof.
  exists (copy heavy_portfolio). split; [reflexivity|].
  split; [apply entries_copy|]. vm_compute. discriminate.
Qed.

(** C7, amended. A run of no days returns a copy of the portfolio it was
    given: a dict with the same entries.  Its value is the sum of the same
    quantities in the order in which the copy is traversed, which is the
    value of the portfolio itself when the copy is traversed like its
    original or at most two securities are held.  The history of such a
    run is the value of the copy alone; and over the store the dict
    returned is that copy. *)
Theorem simulate_zero_days `{G : Prng} `{D : PyDict} (seed : Z)
    (pf : pydict) (params : gmap string (float * float)) :
  simulate seed pf params 0 = Ok (copy pf)
  ∧ entries (copy pf) = entries pf
  ∧ values (copy pf) ≡ₚ values pf
  ∧ ((size (entries pf) ≤ 2)%nat ∨ items (copy pf) = items pf →
     result_map portfolio_value (simulate seed pf params 0)
     = Ok (portfolio_value pf))
  ∧ simulate_with_history seed pf params 0 = Ok [portfolio_value (copy pf)]
  ∧ ∀ (w : Store.world) (pf_ref : nat),
      Store.dicts w !! pf_ref = Some pf →
      Store.outcome (Store.simulate seed pf_ref params 0 w) = Ok (copy pf).
Proof.
  split; [done|]. split; [apply entries_copy|].
  split; [apply values_same_entries, entries_copy|].
  split; [|split; [done|]].
  - intros Hsame. unfold simulate. simpl. f_equal.
    by apply portfolio_value_same_entries; [apply entries_copy|].
  - intros w pf_ref Hpf.
    by destruct (store_simulate_run seed pf_ref pf params 0 w Hpf)
      as (_ & -> & _).
Qed.

(** C9. Neither [simulate] nor [simulate_with_history] changes the
    portfolio it is handed: after the call the caller's dict, like every
    dict that was in the store, holds the entries it held before.  The
    trial works on dicts of its own: what [simulate] returns is a dict
    allocated during the call, the one that [simulate] computes from the
    dict of the argument. *)
Theorem caller_portfolio_unchanged `{G : Prng} `{D : PyDict} (seed : Z)
    (pf_ref : nat) (params : gmap string (float * float)) (days : Z)
    (w : Store.world) (pf : pydict) :
  Store.dicts w !! pf_ref = Some pf →
  Store.dicts (Store.simulate seed pf_ref params days w).2 !! pf_ref
  = Some pf
  ∧ Store.dicts (Store.simulate_with_history seed pf_ref params days w).2
      !! pf_ref
    = Some pf
  ∧ (∀ r d, Store.dicts w !! r = Some d →
       Store.dicts (Store.simulate seed pf_ref params days w).2 !! r = Some d
       ∧ Store.dicts (Store.simulate_with_history seed pf_ref params days w).2
           !! r
         = Some d)
  ∧ (∀ r', (Store.simulate seed pf_ref params days w).1 = Ok r' →
           r' ≠ pf_ref)
  ∧ Store.outcome (Store.simulate seed pf_ref params days w)
    = simulate seed pf params days
  ∧ (Store.simulate_with_history seed pf_ref params days w).1
    = simulate_with_history seed pf params days.
Proof.
  intros Hpf.
  destruct (store_simulate_run seed pf_ref pf params days w Hpf)
    as (Hframe & Hout & Hfresh).
  destruct (store_history_run seed pf_ref pf params days w Hpf)
    as (Hframe_h & Hout_h).
  repeat split; try done.
  - by eapply trial_frame_dict.
  - by eapply trial_frame_dict.
  - by eapply trial_frame_dict.
  - by eapply trial_frame_dict.
  - intros r' Hr' ->. apply Hfresh in Hr'.
    apply lookup_lt_Some in Hpf. lia.
Qed.

(** C6. [simulate] is a function of its arguments alone: from any two
    stores in which the portfolio argument is the same dict (the same
    entries in the same table, at whatever address), equal seeds, profiles
    and day counts give equal results, whatever else the stores hold;
    running another trial first changes nothing; and a trial leaves every
    generator that existed before it as it was, drawing only from the one
    it creates and seeds. *)
Theorem simulate_deterministic `{G : Prng} `{D : PyDict} (seed : Z)
    (params : gmap string (float * float)) (days : Z)
    (pf : pydict) (w1 w2 : Store.world) (r1 r2 : nat) :
  Store.dicts w1 !! r1 = Some pf →
  Store.dicts w2 !! r2 = Some pf →
  Store.outcome (Store.simulate seed r1 params days w1)
  = Store.outcome (Store.simulate seed r2 params days w2)
  ∧ (∀ seed' days',
       Store.outcome
         (Store.simulate seed r1 params days
            (Store.simulate seed' r1 params days' w1).2)
       = Store.outcome (Store.simulate seed r1 params days w1))
  ∧ (∀ q st, Store.rngs w1 !! q = Some st →
       Store.rngs (Store.simulate seed r1 params days w1).2 !! q = Some st).
Proof.
  intros H1 H2.
  destruct (store_simulate_run seed r1 pf params days w1 H1)
    as (Hframe1 & Hout1 & _).
  destruct (store_simulate_run seed r2 pf params days w2 H2)
    as (_ & Hout2 & _).
  split; [congruence|]. split.
  - intros seed' days'.
    destruct (store_simulate_run seed' r1 pf params days' w1 H1)
      as (Hframe' & _ & _).
    pose proof (trial_frame_dict _ _ _ _ Hframe' H1) as H1'.
    destruct (store_simulate_run seed r1 pf params days _ H1')
      as (_ & Hout' & _).
    congruence.
  - intros q st Hq. by eapply trial_frame_rng.
Qed.

(** Dicts that merely hold the same entries are different arguments:
    [heavy_portfolio] and its copy compare equal and are traversed
    differently, so the draws of a day go to different securities, and the
    same seed gives the two a different holding of AAA. *)
Example same_entries_other_trial :
  entries (copy heavy_portfolio) = entries heavy_portfolio
  ∧ result_map (λ pf, entries pf !! "AAA"%string)
      (@simulate Lcg.prng Cpython27.dict 42 (copy heavy_portfolio)
         three_profiles 1)
    ≠ result_map (λ pf, entries pf !! "AAA"%string)
        (@simulate Lcg.prng Cpython27.dict 42 heavy_portfolio
           three_profiles 1).
Proof. split; [apply entries_copy|]. vm_compute. discriminate. Qed.

(** * Instances *)

Lemma ascending_replicate (a : float) (n : nat) :
  F64.leb a a = true → ascending (replicate n a).
Proof.
  intros Ha. induction n as [|n IH]; simpl; constructor; [done|].
  apply Forall_forall. by intros x ->%elem_of_replicate_inv.
Qed.

Lemma ascending_two_runs (a b : float) (n m : nat) :
  F64.leb a a = true → F64.leb a b = true → F64.leb b b = true →
  ascending (replicate n a ++ replicate m b).
Proof.
  intros Ha Hab Hb. apply StronglySorted_app_2.
  - by intros x y ->%elem_of_replicate_inv ->%elem_of_replicate_inv.
  - by apply ascending_replicate.
  - by apply ascending_replicate.
Qed.

Lemma entries_two_securities :
  entries two_securities
  = {[ "AAA"%string := F64.hundred; "BBB"%string := F64.hundred_one ]}.
Proof. vm_compute. reflexivity. Qed.

Lemma covers_two_securities : covers two_profiles two_securities.
Proof.
  unfold covers, two_profiles. rewrite entries_two_securities.
  by rewrite !dom_insert_L, !dom_singleton_L.
Qed.

Lemma two_securities_small : (size (entries two_securities) ≤ 2)%nat.
Proof. rewrite entries_two_securities. vm_compute. lia. Qed.

Lemma eleven_results_floor_witness :
  ∃ sel, eleven_results seven_results = Ok sel ∧ length sel = 11%nat.
Proof.
  assert (1 ≤ len seven_results) as Hlen by (vm_compute; discriminate).
  destruct (eleven_results_floor seven_results Hlen) as (sel & Hsel & Hsize & _).
  exists sel. exact (conj Hsel Hsize).
Defined.

Lemma value_at_risk_floor_index_witness :
  value_at_risk ten_thousand_outcomes F64.zero = Ok neg_one
  ∧ value_at_risk ten_thousand_outcomes F64.lit_0_05 = Ok F64.one
  ∧ ∃ i, floor_index (len ten_thousand_outcomes) F64.zero = Ok i
         ∧ 0 ≤ i < len ten_thousand_outcomes.
Proof.
  assert (ascending ten_thousand_outcomes) as Hsorted
    by (apply ascending_two_runs; reflexivity).
  assert (1 ≤ len ten_thousand_outcomes) as Hlen by (vm_compute; discriminate).
  assert (in_unit F64.zero) as Hunit by (split; reflexivity).
  pose proof (value_at_risk_floor_index ten_thousand_outcomes F64.zero
                Hsorted Hlen Hunit) as (_ & Hinside & Hzero & Hfive).
  assert (len ten_thousand_outcomes < 2 ^ 53) as Hsmall
    by (vm_compute; reflexivity).
  assert (len ten_thousand_outcomes = 10000) as Hcount
    by (vm_compute; reflexivity).
  destruct (Hinside Hsmall eq_refl) as (i & _ & Hi & Hrange & _).
  destruct (Hzero eq_refl Hsmall) as (v & Hv & Hv0 & _).
  destruct (Hfive Hcount) as (v' & Hv500 & Hv').
  vm_compute in Hv0, Hv500.
  injection Hv0 as <-. injection Hv500 as <-.
  exact (conj Hv (conj Hv' (ex_intro _ i (conj Hi Hrange)))).
Defined.

Lemma history_final_consistency_witness :
  ∃ vs, @simulate_with_history Lcg.prng Cpython27.dict 42 two_securities
          two_profiles 3 = Ok vs
        ∧ len vs = 3 + 1
        ∧ getitem vs 0 = Ok (portfolio_value (copy two_securities))
        ∧ portfolio_value (copy two_securities)
          = portfolio_value two_securities.
Proof.
  assert (0 ≤ 3) as Hdays by lia.
  destruct (@history_final_consistency Lcg.prng Cpython27.dict 42
              two_securities two_profiles 3 Hdays)
    as (Hvs & _ & Hsame & _ & Hok).
  specialize (Hok (or_introl covers_two_securities)).
  destruct (@simulate_with_history Lcg.prng Cpython27.dict 42 two_securities
              two_profiles 3) as [vs|e]; [|discriminate Hok].
  exists vs. destruct (Hvs vs eq_refl) as (Hlen & Hfirst & _).
  exact (conj eq_refl (conj Hlen (conj Hfirst
           (Hsame (or_introl two_securities_small))))).
Defined.

Lemma simstep_scales_by_draw_witness :
  ∃ pf' st' x,
    @simstep Lcg.prng Cpython27.dict two_securities two_profiles 7
    = Ok (pf', st')
    ∧ entries pf' !! "BBB"%string
      = Some (F64.mul (F64.div (F64.add x F64.hundred) F64.hundred)
                F64.hundred_one).
Proof.
  destruct (proj1 (@simstep_scales_by_draw Lcg.prng Cpython27.dict)
              two_securities two_profiles 7 covers_two_securities)
    as (pf' & st' & Hs & _ & Hall).
  assert (entries two_securities !! "BBB"%string = Some F64.hundred_one)
    as Hheld by (vm_compute; reflexivity).
  destruct (Hall "BBB"%string F64.hundred_one Hheld)
    as (mean & stddev & k & x & st1 & _ & _ & _ & Hx).
  exists pf', st', x. exact (conj Hs Hx).
Defined.

Lemma simulate_deterministic_witness :
  Store.outcome (Store.simulate 42 0%nat two_profiles 2 store_a)
  = Store.outcome (Store.simulate 42 1%nat two_profiles 2 store_b).
Proof.
  exact (proj1 (@simulate_deterministic Lcg.prng Cpython27.dict 42
                  two_profiles 2 two_securities store_a store_b 0%nat 1%nat
                  eq_refl eq_refl)).
Defined.

Lemma simulate_missing_profile_witness :
  (∃ s, @simulate Lcg.prng Cpython27.dict 42 two_securities rising_profile 1
        = Raise (KeyError s))
  ∧ (∃ pf', @simulate Lcg.prng Cpython27.dict 42 two_securities two_profiles 1
            = Ok pf').
Proof.
  split.
  - assert (∃ s, s ∈ dom (entries two_securities)
                 ∧ rising_profile !! s = None) as Hmissing.
    { exists "BBB"%string. split; [|vm_compute; reflexivity].
      apply elem_of_dom. exists F64.hundred_one. vm_compute; reflexivity. }
    assert (1 ≤ 1) as Hdays by lia.
    destruct (proj1 (@simulate_missing_profile Lcg.prng Cpython27.dict 42
                       two_securities rising_profile 1) Hmissing Hdays)
      as (s & _ & _ & Hs).
    exists s. exact Hs.
  - exact (proj2 (proj2 (@simulate_missing_profile Lcg.prng Cpython27.dict 42
                           two_securities two_profiles 1))
             covers_two_securities).
Defined.

Lemma simulate_zero_days_witness :
  @simulate Lcg.prng Cpython27.dict 42 two_securities two_profiles 0
  = Ok (copy two_securities)
  ∧ result_map portfolio_value
      (@simulate Lcg.prng Cpython27.dict 42 two_securities two_profiles 0)
    = Ok (portfolio_value two_securities)
  ∧ Store.outcome (Store.simulate 42 1%nat two_profiles 0 store_b)
    = Ok (copy two_securities).
Proof.
  destruct (@simulate_zero_days Lcg.prng Cpython27.dict 42 two_securities
              two_profiles) as (Hsame & _ & _ & Hvalue & _ & Hstore).
  exact (conj Hsame (conj (Hvalue (or_introl two_securities_small))
           (Hstore store_b 1%nat eq_refl))).
Defined.

Lemma caller_portfolio_unchanged_witness :
  Store.dicts (Store.simulate 42 1%nat two_profiles 2 store_b).2 !! 1%nat
  = Some two_securities.
Proof.
  exact (proj1 (@caller_portfolio_unchanged Lcg.prng Cpython27.dict 42 1%nat
                  two_profiles 2 store_b two_securities eq_refl)).
Defined.

Lemma simstep_preserves_symbols_witness :
  ∃ pf' st',
    @simstep Lcg.prng Cpython27.dict two_securities two_profiles 7
    = Ok (pf', st')
    ∧ dom (entries pf') = dom (entries two_securities).
Proof.
  destruct (@simstep_preserves_symbols Lcg.prng Cpython27.dict two_securities
              two_profiles 7 covers_two_securities)
    as ((pf' & st' & Hs & Hd & _) & _).
  exists pf', st'. exact (conj Hs Hd).
Defined.

(** * Further properties *)

(** ** Sums of quantities *)

Lemma add_sign_clear (x y : float) :
  sign_clear x → sign_clear y → sign_clear (F64.add x y).
Proof.
  destruct x as [sx|sx| |sx mx ex], y as [sy|sy| |sy my ey];
    simpl; intros Hx Hy; subst; try done.
  - by destruct sx, sy.
  - unfold F64.add, SFadd. simpl cond_Zopp.
    unfold binary_normalize. rewrite <- Pos2Z.inj_add. unfold binary_round.
    destruct (shl_align (_ + _)%positive _ _) as [mz ez].
    pose proof (binary_round_aux_sign false (Z.pos mz) ez loc_Exact) as Hs.
    by destruct (binary_round_aux _ _ _ _ _ _).
Qed.

Lemma foldl_add_sign_clear (xs : list float) (acc : float) :
  sign_clear acc → Forall sign_clear xs →
  sign_clear (foldl F64.add acc xs).
Proof.
  revert acc. induction xs as [|x xs IH]; intros acc Hacc Hall; simpl;
    [done|].
  apply Forall_cons in Hall as [Hx Hall].
  apply IH; [by apply add_sign_clear|done].
Qed.

Lemma foldl_add_nan (xs : list float) :
  foldl F64.add S754_nan xs = S754_nan.
Proof. induction xs as [|x xs IH]; simpl; [done|]. by rewrite IH. Qed.

Lemma add_nan_r (x : float) : F64.add x S754_nan = S754_nan.
Proof. by destruct x. Qed.

Lemma sum_nan (xs : list float) : S754_nan ∈ xs → sum xs = S754_nan.
Proof.
  unfold sum. generalize F64.zero. induction xs as [|x xs IH]; intros acc Hin.
  - by apply elem_of_nil in Hin.
  - simpl. apply elem_of_cons in Hin as [<-|Hin]; [|by apply IH].
    by rewrite add_nan_r, foldl_add_nan.
Qed.

(** [x - x] is [+0.0] for every finite [x]. *)
Lemma float_sub_self (x : float) :
  F64.is_finite x = true → float_sub x x = F64.zero.
Proof.
  destruct x as [[]| | |s m e]; try done. intros _.
  unfold float_sub, SFsub. rewrite Z.sub_diag. done.
Qed.

(** ** Setting up a portfolio *)

Section PortfolioFacts.

Context {G : Prng} {D : PyDict}.
Implicit Types (prices : gmap string float) (result pf : pydict).
Implicit Types (st : prng_state).

(** One pass of the loop: one draw, one entry set. *)
Lemma random_portfolio_step prices s symbols result st price :
  prices !! s = Some price →
  ∃ lots,
    1 ≤ (prng_randint 1 1000 st).1 ≤ 1000
    ∧ F64.of_int ((prng_randint 1 1000 st).1 * 11) = Ok lots
    ∧ random_portfolio_loop prices (s :: symbols) result st
      = random_portfolio_loop prices symbols
          (dict_setitem s (F64.mul price lots) result) (lot_draw st).
Proof.
  intros Hp. simpl. rewrite Hp. unfold bind, randint, lot_draw. simpl.
  pose proof (prng_randint_range 1 1000 st ltac:(lia)) as Hk.
  destruct (prng_randint 1 1000 st) as [k st1]. simpl in *.
  destruct (of_int_small (k * 11)) as (lots & Hlots & _);
    [change (2 ^ 53) with 9007199254740992; lia|].
  exists lots. by rewrite Hlots.
Qed.

Lemma lot_set_later prices st i s q :
  lot_set prices (lot_draw st) i s q → lot_set prices st (S i) s q.
Proof.
  intros (price & lots & Hp & Hlots & ->). exists price, lots.
  by rewrite Nat.iter_succ_r.
Qed.

(** The loop over priced tickers: every ticker of the list ends up with
    the holding set by its last pass, and the other entries of [result]
    stay. *)
Lemma random_portfolio_loop_priced prices symbols result st :
  Forall (λ s, is_Some (prices !! s)) symbols →
  ∃ pf,
    random_portfolio_loop prices symbols result st
    = Ok (pf, Nat.iter (length symbols) lot_draw st)
    ∧ dom (entries pf) = dom (entries result) ∪ list_to_set symbols
    ∧ (∀ s, s ∉ symbols → entries pf !! s = entries result !! s)
    ∧ (∀ s, s ∈ symbols →
         ∃ (i : nat) q,
           symbols !! i = Some s
           ∧ (∀ j : nat, (i < j)%nat → symbols !! j ≠ Some s)
           ∧ entries pf !! s = Some q
           ∧ lot_set prices st i s q).
Proof.
  revert result st.
  induction symbols as [|s symbols IH]; intros result st Hall.
  - exists result. simpl. split; [done|].
    split; [by rewrite (right_id_L ∅ (∪))|].
    split; [done|]. intros s Hs. by apply elem_of_nil in Hs.
  - apply Forall_cons in Hall as [[price Hp] Hall].
    destruct (random_portfolio_step prices s symbols result st price Hp)
      as (lots & Hk & Hlots & ->).
    destruct (IH (dict_setitem s (F64.mul price lots) result) (lot_draw st)
                Hall) as (pf & Hrun & Hdom & Hout & Hin).
    exists pf. split; [|split; [|split]].
    + rewrite Hrun. simpl length. by rewrite Nat.iter_succ_r.
    + rewrite Hdom, entries_setitem, dom_insert_L. simpl.
      rewrite (comm_L (∪) {[s]} (dom (entries result))).
      by rewrite <- (assoc_L (∪)).
    + intros s' Hs'. apply not_elem_of_cons in Hs' as [Hne Hnot].
      by rewrite (Hout s' Hnot), entries_setitem, lookup_insert_ne.
    + intros s' Hs'. destruct (decide (s' ∈ symbols)) as [Hlater|Hnot].
      * destruct (Hin s' Hlater) as (i & q & Hi & Hlast & Hq & Hset).
        exists (S i), q. split; [done|]. split; [|split; [done|]].
        -- intros [|j] Hj; [lia|]. apply Hlast. lia.
        -- by apply lot_set_later.
      * apply elem_of_cons in Hs' as [->|?]; [|done].
        exists 0%nat, (F64.mul price lots). split; [done|].
        split; [|split].
        -- intros [|j] Hj Hlook; [lia|]. simpl in Hlook.
           apply Hnot. by eapply list_elem_of_lookup_2.
        -- by rewrite (Hout s Hnot), entries_setitem, lookup_insert_eq.
        -- by exists price, lots.
Qed.

Lemma random_portfolio_loop_missing prices before s after result st :
  Forall (λ s, is_Some (prices !! s)) before → prices !! s = None →
  random_portfolio_loop prices (before ++ s :: after) result st
  = Raise (KeyError s).
Proof.
  revert result st.
  induction before as [|s0 before IH]; intros result st Hall Hs.
  - simpl. by rewrite Hs.
  - apply Forall_cons in Hall as [[price Hp] Hall].
    change ((s0 :: before) ++ s :: after) with (s0 :: (before ++ s :: after)).
    destruct (random_portfolio_step prices s0 (before ++ s :: after)
                result st price Hp) as (lots & _ & _ & ->).
    by apply IH.
Qed.

Lemma random_portfolio_loop_ok_priced prices symbols result st pf st' :
  random_portfolio_loop prices symbols result st = Ok (pf, st') →
  Forall (λ s, is_Some (prices !! s)) symbols.
Proof.
  revert result st.
  induction symbols as [|s symbols IH]; intros result st Hrun; [done|].
  destruct (prices !! s) as [price|] eqn:Hp.
  - destruct (random_portfolio_step prices s symbols result st price Hp)
      as (lots & _ & _ & Heq).
    rewrite Heq in Hrun. constructor; [by eexists|by eapply IH].
  - simpl in Hrun. by rewrite Hp in Hrun.
Qed.

End PortfolioFacts.

(** X1. When every ticker has a price, [random_portfolio] returns a
    portfolio over exactly the tickers it was given, and the generator has
    been drawn from once per list entry, repeated tickers included.  The
    holding of a ticker is the one set by the last pass of the loop for
    that ticker: its price times [k * 11] shares, where [k] is what that
    pass drew with [randint(1, 1000)], so [1 <= k <= 1000]. *)
Theorem random_portfolio_priced `{G : Prng} `{D : PyDict}
    (prices : gmap string float) (symbols : list string)
    (st : prng_state) :
  (∀ s, s ∈ symbols → is_Some (prices !! s)) →
  ∃ pf,
    random_portfolio prices symbols st
    = Ok (pf, Nat.iter (length symbols) lot_draw st)
    ∧ dom (entries pf) = list_to_set symbols
    ∧ ∀ s q, entries pf !! s = Some q →
        ∃ i : nat,
          symbols !! i = Some s
          ∧ (∀ j : nat, (i < j)%nat → symbols !! j ≠ Some s)
          ∧ 1 ≤ (prng_randint 1 1000 (Nat.iter i lot_draw st)).1 ≤ 1000
          ∧ lot_set prices st i s q.
Proof.
  intros Hall. apply Forall_forall in Hall.
  destruct (random_portfolio_loop_priced prices symbols dict_new st Hall)
    as (pf & Hrun & Hdom & Hout & Hin).
  exists pf. split; [done|].
  split; [by rewrite Hdom, entries_new, dom_empty_L, (left_id_L ∅ (∪))|].
  intros s q Hq. destruct (decide (s ∈ symbols)) as [Hs|Hs].
  - destruct (Hin s Hs) as (i & q' & Hi & Hlast & Hq' & Hset).
    assert (q' = q) as -> by congruence.
    exists i. split; [done|]. split; [done|]. split; [|done].
    apply prng_randint_range. lia.
  - rewrite (Hout s Hs), entries_new, lookup_empty in Hq. done.
Qed.

(** X2. A ticker without a price makes [random_portfolio] raise
    [KeyError] for the first such ticker of the list, whatever follows
    it, and no portfolio is returned. *)
Theorem random_portfolio_missing_price `{G : Prng} `{D : PyDict}
    (prices : gmap string float) (before after : list string) (s : string)
    (st : prng_state) :
  (∀ s', s' ∈ before → is_Some (prices !! s')) →
  prices !! s = None →
  random_portfolio prices (before ++ s :: after) st = Raise (KeyError s).
Proof.
  intros Hall Hs. apply Forall_forall in Hall.
  by apply random_portfolio_loop_missing.
Qed.

Lemma of_int_sign_clear (n : Z) (x : float) :
  0 ≤ n → F64.of_int n = Ok x → sign_clear x.
Proof.
  intros Hn. unfold F64.of_int.
  destruct (F64.is_finite (F64.round_Z n)); [|done].
  intros [= <-]. by apply round_Z_pos_sign_clear.
Qed.

(** X3. With no negative price, no holding of the portfolio that
    [random_portfolio] returns is negative. *)
Theorem random_portfolio_not_negative `{G : Prng} `{D : PyDict}
    (prices : gmap string float) (symbols : list string)
    (st st' : prng_state) (pf : pydict) :
  (∀ s price, prices !! s = Some price → sign_clear price) →
  random_portfolio prices symbols st = Ok (pf, st') →
  ∀ s q, entries pf !! s = Some q → sign_clear q.
Proof.
  intros Hprices Hrun s q Hq.
  pose proof (random_portfolio_loop_ok_priced _ _ _ _ _ _ Hrun) as Hall.
  destruct (random_portfolio_loop_priced prices symbols dict_new st Hall)
    as (pf' & Hrun' & _ & Hout & Hin).
  unfold random_portfolio in Hrun. rewrite Hrun in Hrun'.
  injection Hrun' as <- _.
  destruct (decide (s ∈ symbols)) as [Hs|Hs];
    [|by rewrite (Hout s Hs), entries_new, lookup_empty in Hq].
  destruct (Hin s Hs) as (i & q' & _ & _ & Hq' & price & lots & Hp & Hlots & ->).
  assert (q = F64.mul price lots) as -> by congruence.
  apply mul_sign_clear; [by eapply Hprices|].
  eapply of_int_sign_clear; [|done].
  pose proof (prng_randint_range 1 1000 (Nat.iter i lot_draw st)
                ltac:(lia)). lia.
Qed.

(** X4. The value of a portfolio without a negative holding is not
    negative; the value of the empty portfolio is zero. *)
Theorem portfolio_value_not_negative `{D : PyDict} (pf : pydict) :
  (∀ s q, entries pf !! s = Some q → sign_clear q) →
  sign_clear (portfolio_value pf)
  ∧ (entries pf = ∅ → portfolio_value pf = F64.zero).
Proof.
  intros Hall. split.
  - unfold portfolio_value, sum. apply foldl_add_sign_clear; [done|].
    apply Forall_forall. intros q Hq. unfold values in Hq.
    apply list_elem_of_fmap in Hq as ([s q'] & -> & Hin).
    apply elem_of_items in Hin. by eapply Hall.
  - intros He. unfold portfolio_value, values.
    by rewrite (items_empty pf He).
Qed.

(** ** Histories, day by day *)

Section HistoryFacts.

Context {G : Prng} {D : PyDict}.
Implicit Types (pf : pydict) (params : gmap string (float * float)).
Implicit Types (st : prng_state).

Lemma history_loop_extends n pf params values st vs st' :
  history_loop n pf params values st = Ok (vs, st') →
  ∃ trace, vs = values ++ trace ∧ length trace = n.
Proof.
  intros Hrun.
  pose proof (history_loop_simulate_loop n pf params values st) as Hrel.
  rewrite Hrun in Hrel.
  destruct (simulate_loop n pf params st) as [[pf' st1]|e]; [|done].
  destruct Hrel as (_ & trace & -> & Hlen & _). by exists trace.
Qed.

(** Entry [k] of a history is the value after [k] days. *)
Lemma history_loop_entries n pf params before st vs st' :
  history_loop n pf params (before ++ [portfolio_value pf]) st = Ok (vs, st') →
  ∀ k, (k ≤ n)%nat →
    ∃ pfk stk, simulate_loop k pf params st = Ok (pfk, stk)
               ∧ vs !! (length before + k)%nat = Some (portfolio_value pfk).
Proof.
  revert pf before st.
  induction n as [|n IH]; intros pf before st Hrun k Hk.
  - assert (k = 0%nat) as -> by lia. simpl in Hrun. injection Hrun as <- _.
    exists pf, st. split; [done|].
    rewrite Nat.add_0_r. by apply list_lookup_middle.
  - simpl in Hrun. unfold bind in Hrun.
    destruct (simstep pf params st) as [[pf1 st1]|e] eqn:Hs; [|done].
    rewrite <- (assoc_L (++)) in Hrun.
    destruct k as [|k].
    + exists pf, st. split; [done|].
      destruct (history_loop_extends _ _ _ _ _ _ _ Hrun) as (trace & -> & _).
      rewrite Nat.add_0_r. rewrite <- (assoc_L (++)).
      by apply list_lookup_middle.
    + change (before ++ [portfolio_value pf] ++ [portfolio_value pf1])
        with (before ++ [portfolio_value pf] ++ [portfolio_value pf1]) in Hrun.
      rewrite (assoc_L (++)) in Hrun.
      destruct (IH pf1 (before ++ [portfolio_value pf]) st1 Hrun k ltac:(lia))
        as (pfk & stk & Hloop & Hlook).
      exists pfk, stk. split.
      * simpl. unfold bind. by rewrite Hs.
      * rewrite length_app in Hlook. simpl in Hlook.
        by replace (length before + S k)%nat
          with (length before + 1 + k)%nat by lia.
Qed.

Lemma history_loop_shorter n n' pf params values st vs' st' :
  (n ≤ n')%nat →
  history_loop n' pf params values st = Ok (vs', st') →
  ∃ st'', history_loop n pf params values st
          = Ok (take (length values + n) vs', st'').
Proof.
  revert n pf values st.
  induction n' as [|n' IH]; intros n pf values st Hn Hrun.
  - assert (n = 0%nat) as -> by lia. simpl in *. injection Hrun as <- <-.
    exists st. rewrite Nat.add_0_r. by rewrite firstn_all.
  - destruct n as [|n].
    + destruct (history_loop_extends _ _ _ _ _ _ _ Hrun) as (trace & -> & _).
      exists st. simpl. rewrite Nat.add_0_r. by rewrite take_app_length.
    + simpl in *. unfold bind in *.
      destruct (simstep pf params st) as [[pf1 st1]|e]; [|done].
      destruct (IH n pf1 _ st1 ltac:(lia) Hrun) as (st'' & ->).
      exists st''. rewrite length_app. simpl.
      by replace (length values + 1 + n)%nat
        with (length values + S n)%nat by lia.
Qed.

End HistoryFacts.

(** X5. Every entry of a history, not only the last, is the value of the
    portfolio that [simulate] returns for that many days: entry [k] of
    [simulate_with_history(seed, pf, params, N)] is
    [portfolio_value(simulate(seed, pf, params, k))] for [0 <= k <= N]. *)
Theorem history_entries `{G : Prng} `{D : PyDict} (seed : Z) (pf : pydict)
    (params : gmap string (float * float)) (N : Z) (vs : list float) :
  0 ≤ N →
  simulate_with_history seed pf params N = Ok vs →
  ∀ k, 0 ≤ k ≤ N →
    ∃ pfk, simulate seed pf params k = Ok pfk
           ∧ getitem vs k = Ok (portfolio_value pfk).
Proof.
  intros HN Hrun k Hk. unfold simulate_with_history, simulate in *.
  destruct (history_loop (Z.to_nat N) (copy pf) params
              [portfolio_value (copy pf)] (prng_seed seed))
    as [[vs' st']|e] eqn:Hloop; [|done].
  injection Hrun as <-.
  destruct (history_loop_entries (Z.to_nat N) (copy pf) params []
              (prng_seed seed) vs' st' Hloop (Z.to_nat k) ltac:(lia))
    as (pfk & stk & Hsim & Hlook).
  exists pfk. rewrite Hsim. split; [done|].
  rewrite getitem_nonneg by lia. simpl in Hlook. by rewrite Hlook.
Qed.

(** X6. A longer horizon does not change the earlier days: when the run
    for [N'] days returns, the run for [N <= N'] days with the same seed
    returns its first [N + 1] entries. *)
Theorem history_prefix `{G : Prng} `{D : PyDict} (seed : Z) (pf : pydict)
    (params : gmap string (float * float)) (N N' : Z) (vs' : list float) :
  0 ≤ N ≤ N' →
  simulate_with_history seed pf params N' = Ok vs' →
  simulate_with_history seed pf params N = Ok (take (Z.to_nat (N + 1)) vs').
Proof.
  intros HN Hlong. unfold simulate_with_history in *.
  destruct (history_loop (Z.to_nat N') (copy pf) params
              [portfolio_value (copy pf)] (prng_seed seed))
    as [[vs st']|e] eqn:Hloop; [|done].
  injection Hlong as <-.
  destruct (history_loop_shorter (Z.to_nat N) (Z.to_nat N') (copy pf) params
              [portfolio_value (copy pf)] (prng_seed seed) vs st' ltac:(lia)
              Hloop)
    as (st'' & ->).
  simpl. do 2 f_equal. lia.
Qed.

(** ** Errors and NaN *)

Section ErrorFacts.

Context {G : Prng} {D : PyDict}.
Implicit Types (pf : pydict) (params : gmap string (float * float)).
Implicit Types (st : prng_state).

Lemma mapM_revalue_raise_any params l st st2 e :
  mapM (revalue params) l st = Raise e →
  mapM (revalue params) l st2 = Raise e.
Proof.
  revert st st2. induction l as [|sv l IH]; intros st st2; simpl; [done|].
  unfold bind at 1 3.
  destruct (params !! sv.1) as [[mean stddev]|] eqn:Hp.
  - destruct (revalue_present params sv st mean stddev Hp) as (x & _ & ->).
    destruct (revalue_present params sv st2 mean stddev Hp) as (x2 & _ & ->).
    unfold bind.
    destruct (mapM (revalue params) l (advance st)) as [[bs st1]|e'] eqn:Hl;
      [done|].
    intros [= <-]. by rewrite (IH _ (advance st2) Hl).
  - by rewrite !revalue_missing.
Qed.

Lemma simstep_raise_any pf params st st2 e :
  simstep pf params st = Raise e → simstep pf params st2 = Raise e.
Proof.
  rewrite !simstep_unfold. unfold bind, ret.
  destruct (mapM (revalue params) (items pf) st) as [[pairs st1]|e'] eqn:Hm;
    [done|].
  intros [= <-]. by rewrite (mapM_revalue_raise_any _ _ _ st2 _ Hm).
Qed.

Lemma simulate_loop_raise_first n pf params st e :
  simulate_loop n pf params st = Raise e →
  (0 < n)%nat ∧ simstep pf params st = Raise e.
Proof.
  destruct n as [|n]; [done|]. simpl. unfold bind.
  destruct (simstep pf params st) as [[pf1 st1]|e1] eqn:Hs.
  - apply simstep_ok_inv in Hs as (Hd & Hc & _).
    destruct (simulate_loop_covered n pf1 params st1) as (pf' & st' & ->);
      [unfold covers; by rewrite Hd|done].
  - intros [= <-]. split; [lia|done].
Qed.

Lemma normalvariate_value mean stddev st x st1 :
  normalvariate mean stddev st = Ok (x, st1) →
  ∃ z, x = F64.add mean (F64.mul z stddev).
Proof.
  unfold normalvariate. destruct (prng_std_normal st) as [z st'].
  intros [= <- _]. by exists z.
Qed.

(** A quantity, a mean or a deviation that is NaN makes the quantity NaN
    after the day. *)
Lemma simstep_nan pf params st pf' st' s v mean stddev :
  simstep pf params st = Ok (pf', st') →
  entries pf !! s = Some v → params !! s = Some (mean, stddev) →
  v = S754_nan ∨ mean = S754_nan ∨ stddev = S754_nan →
  entries pf' !! s = Some S754_nan.
Proof.
  intros Hs Hv Hp Hnan.
  apply simstep_ok_inv in Hs as (_ & _ & _ & Hdrawn).
  destruct (Hdrawn s v Hv)
    as (v' & Hlook & _ & mean' & stddev' & k & x & st1 & _ & Hp' & Hx & Hv').
  change (params !! s = Some (mean', stddev')) in Hp'.
  change (v' = F64.mul (F64.div (F64.add x F64.hundred) F64.hundred) v)
    in Hv'.
  assert (Some (mean', stddev') = Some (mean, stddev)) as [= -> ->]
    by (etrans; [symmetry; exact Hp'|exact Hp]).
  apply normalvariate_value in Hx as [z ->]. subst v'.
  etrans; [exact Hlook|]. f_equal.
  destruct Hnan as [->|[->| ->]].
  - by destruct (F64.div _ _).
  - done.
  - by destruct z, mean.
Qed.

Lemma simulate_loop_nan n pf params st pf' st' s :
  simulate_loop n pf params st = Ok (pf', st') →
  entries pf !! s = Some S754_nan → entries pf' !! s = Some S754_nan.
Proof.
  revert pf st. induction n as [|n IH]; intros pf st; simpl.
  - by intros [= <- <-].
  - unfold bind.
    destruct (simstep pf params st) as [[pf1 st1]|e] eqn:Hs; [|done].
    intros Hl Hv. eapply IH; [done|].
    pose proof Hs as (_ & Hc & _)%simstep_ok_inv.
    assert (is_Some (params !! s)) as [[mean stddev] Hp].
    { apply elem_of_dom, Hc, elem_of_dom. by eexists. }
    eapply simstep_nan; eauto.
Qed.

Lemma portfolio_value_nan pf s :
  entries pf !! s = Some S754_nan → portfolio_value pf = S754_nan.
Proof.
  intros Hs. unfold portfolio_value. apply sum_nan.
  unfold values. apply list_elem_of_fmap.
  exists (s, S754_nan). split; [done|]. by apply elem_of_items.
Qed.

End ErrorFacts.

(** X7. The error of a trial depends neither on the seed nor on the
    horizon: when [simulate] raises for one seed and day count, it raises
    the same error for every seed and every day count of at least one, and
    so does [simulate_with_history]. *)
Theorem simulate_error_fixed `{G : Prng} `{D : PyDict} (seed seed' : Z)
    (pf : pydict) (params : gmap string (float * float))
    (days days' : Z) (e : exn) :
  1 ≤ days' →
  simulate seed pf params days = Raise e →
  simulate seed' pf params days' = Raise e
  ∧ simulate_with_history seed' pf params days' = Raise e.
Proof.
  intros Hdays Hraise. unfold simulate, simulate_with_history in *.
  destruct (simulate_loop (Z.to_nat days) (copy pf) params (prng_seed seed))
    as [[pf0 st0]|e0] eqn:Hloop; [done|].
  injection Hraise as ->.
  apply simulate_loop_raise_first in Hloop as [_ Hstep].
  apply (simstep_raise_any _ _ _ (prng_seed seed')) in Hstep.
  pose proof (history_loop_simulate_loop (Z.to_nat days') (copy pf) params
                [portfolio_value (copy pf)] (prng_seed seed')) as Hrel.
  destruct (Z.to_nat days') as [|n] eqn:Hn; [lia|].
  simpl in *. unfold bind in *. rewrite Hstep in *. done.
Qed.

(** X8. A profile whose mean or deviation is NaN is not rejected: after
    one day or more the holding of that security is NaN, and so is the
    value of the whole portfolio. *)
Theorem simulate_nan_profile `{G : Prng} `{D : PyDict} (seed : Z)
    (pf : pydict) (params : gmap string (float * float))
    (days : Z) (s : string) (v mean stddev : float) :
  covers params pf → 1 ≤ days →
  entries pf !! s = Some v → params !! s = Some (mean, stddev) →
  mean = S754_nan ∨ stddev = S754_nan →
  ∃ pf', simulate seed pf params days = Ok pf'
         ∧ entries pf' !! s = Some S754_nan
         ∧ portfolio_value pf' = S754_nan.
Proof.
  intros Hc Hdays Hv Hp Hnan. unfold simulate.
  rewrite <- (entries_copy pf) in Hv.
  destruct (simulate_loop_covered (Z.to_nat days) (copy pf) params
              (prng_seed seed)) as (pf' & st' & Hloop);
    [unfold covers; by rewrite entries_copy|].
  rewrite Hloop. exists pf'. split; [done|].
  assert (entries pf' !! s = Some S754_nan) as Hs;
    [|by eauto using portfolio_value_nan].
  destruct (Z.to_nat days) as [|n] eqn:Hn; [lia|].
  simpl in Hloop. unfold bind in Hloop.
  destruct (simstep (copy pf) params (prng_seed seed))
    as [[pf1 st1]|e] eqn:Hstep; [|done].
  eapply simulate_loop_nan; [done|].
  eapply simstep_nan; eauto.
Qed.

(** ** Seeds, continued *)

Section SeedFacts.

Context {G : Prng}.

Lemma seeds_loop_app (n m : nat) (st : prng_state) :
  seeds_loop (n + m) st
  = ((seeds_loop n st).1 ++ (seeds_loop m (seeds_loop n st).2).1,
     (seeds_loop m (seeds_loop n st).2).2).
Proof.
  revert st. induction n as [|n IH]; intros st; simpl.
  - by destruct (seeds_loop m st).
  - destruct (prng_randint _ _ st) as [x st1]. rewrite IH.
    by destruct (seeds_loop n st1) as [xs st2].
Qed.

End SeedFacts.

(** X9. Asking for more seeds extends the list: from the same state of
    the generator, [seeds(n + m)] is [seeds(n)] followed by the [m] seeds
    drawn next; and a count of zero or less gives no seed and leaves the
    generator as it is. *)
Theorem seeds_extend `{G : Prng} (n m : Z) (st : prng_state) :
  (0 ≤ n → 0 ≤ m →
   (seeds (n + m) st).1
   = (seeds n st).1 ++ (seeds m (seeds n st).2).1)
  ∧ (n ≤ 0 → seeds n st = ([], st)).
Proof.
  unfold seeds. split.
  - intros Hn Hm. rewrite Z2Nat.inj_add by done. by rewrite seeds_loop_app.
  - intros Hn. by replace (Z.to_nat n) with 0%nat by lia.
Qed.

(** ** Deciles, continued *)

Lemma result_mapM_inv {A B} (f : A → result B) (l : list A) (bs : list B) :
  result_mapM f l = Ok bs → Forall2 (λ a b, f a = Ok b) l bs.
Proof.
  revert bs. induction l as [|a l IH]; intros bs; simpl.
  - intros [= <-]. constructor.
  - destruct (f a) as [b|e] eqn:Hb; [|done]. simpl.
    destruct (result_mapM f l) as [bs'|e]; [|done]. simpl.
    intros [= <-]. constructor; [done|]. by apply IH.
Qed.

Lemma getitem_elem_of {A} (l : list A) (i : Z) (a : A) :
  getitem l i = Ok a → a ∈ l.
Proof.
  unfold getitem. destruct (_ <? 0); [done|].
  destruct (l !! _) as [a'|] eqn:Hl; [|done].
  intros [= <-]. by eapply list_elem_of_lookup_2.
Qed.

Lemma eleven_results_lookup {A} (rs sel : list A) (i : nat) :
  eleven_results rs = Ok sel → (i ≤ 10)%nat →
  getitem rs (decile_index (len rs) (Z.of_nat i))
  = match sel !! i with Some a => Ok a | None => Raise IndexError end
  ∧ is_Some (sel !! i).
Proof.
  intros Hsel Hi. unfold eleven_results in Hsel.
  apply result_mapM_inv in Hsel.
  destruct (Forall2_lookup_l _ _ _ i (Z.of_nat i) Hsel) as (b & Hb & Hget).
  { apply range_lookup. simpl. lia. }
  rewrite Hb. split; [done|by eexists].
Qed.

Lemma decile_index_mono (n i j : Z) :
  1 ≤ n → 0 ≤ i ≤ j → decile_index n i ≤ decile_index n j.
Proof.
  intros Hn Hij. unfold decile_index. apply Z.div_le_mono; [lia|nia].
Qed.

Lemma StronglySorted_lookup_lt {A} (R : relation A) (l : list A)
    (i j : nat) (a b : A) :
  StronglySorted R l → (i < j)%nat →
  l !! i = Some a → l !! j = Some b → R a b.
Proof.
  intros Hsorted. revert i j.
  induction Hsorted as [|x l Hsorted IH Hall]; intros i j Hij Hi Hj; [done|].
  destruct j as [|j]; [lia|]. simpl in Hj. destruct i as [|i].
  - simpl in Hi. injection Hi as <-.
    eapply Forall_forall in Hall; [done|]. by eapply list_elem_of_lookup_2.
  - simpl in Hi. eapply (IH i j); [lia|done..].
Qed.

(** X10. Decile selection always takes the first and the last of the
    sorted results, and it takes its eleven picks in the order of the
    list: of two picks the later one is the same result or one that the
    sort places after it. *)
Theorem eleven_results_spread {A} (R : relation A) (sorted_results : list A) :
  StronglySorted R sorted_results →
  1 ≤ len sorted_results →
  ∃ sel, eleven_results sorted_results = Ok sel
         ∧ sel !! 0%nat = sorted_results !! 0%nat
         ∧ sel !! 10%nat = last sorted_results
         ∧ ∀ (i j : nat) a b, (i ≤ j ≤ 10)%nat →
             sel !! i = Some a → sel !! j = Some b →
             decile_index (len sorted_results) (Z.of_nat i)
             = decile_index (len sorted_results) (Z.of_nat j) ∧ a = b
             ∨ R a b.
Proof.
  intros Hsorted Hlen.
  destruct (result_mapM_ok
              (λ i, getitem sorted_results
                      (decile_index (len sorted_results) i)) (range 11))
    as (sel & Hsel & _).
  { intros i Hi. unfold range in Hi.
    apply list_elem_of_fmap in Hi as (k & -> & Hk). apply elem_of_seq in Hk.
    destruct (getitem_in_range sorted_results
                (decile_index (len sorted_results) (Z.of_nat k)))
      as (a & _ & ->); [apply decile_index_range; lia|done]. }
  exists sel. split; [done|].
  assert (∀ i : nat, (i ≤ 10)%nat →
            sel !! i
            = sorted_results
                !! Z.to_nat (decile_index (len sorted_results) (Z.of_nat i)))
    as Hat.
  { intros i Hi.
    destruct (eleven_results_lookup sorted_results sel i Hsel Hi)
      as [Hget [b Hb]].
    destruct (getitem_in_range sorted_results
                (decile_index (len sorted_results) (Z.of_nat i)))
      as (a & Ha & Hget'); [apply decile_index_range; lia|].
    rewrite Hget', Hb in Hget. injection Hget as ->. by rewrite Ha, Hb. }
  split; [|split].
  - rewrite (Hat 0%nat) by lia. unfold decile_index.
    by rewrite Z.mul_0_r, Z.div_0_l.
  - rewrite (Hat 10%nat) by lia. unfold decile_index.
    change (Z.of_nat 10) with 10. rewrite Z.div_mul by lia.
    rewrite last_lookup. f_equal. unfold len. lia.
  - intros i j a b Hij Ha Hb.
    rewrite (Hat i) in Ha by lia. rewrite (Hat j) in Hb by lia.
    pose proof (decile_index_mono (len sorted_results) (Z.of_nat i)
                  (Z.of_nat j) Hlen ltac:(lia)) as Hmono.
    pose proof (decile_index_range (len sorted_results) (Z.of_nat i) Hlen
                  ltac:(lia)) as Hri.
    destruct (Z.eq_dec (decile_index (len sorted_results) (Z.of_nat i))
                (decile_index (len sorted_results) (Z.of_nat j)))
      as [Heq|Hne].
    + left. split; [done|]. rewrite Heq in Ha. congruence.
    + right. eapply (StronglySorted_lookup_lt R sorted_results); [done| |done..].
      lia.
Qed.

(** ** Thinning the values to plot *)

Lemma omap_total {A B} (f : A → option B) (l : list A) :
  (∀ x, x ∈ l → is_Some (f x)) →
  Forall2 (λ x y, f x = Some y) l (omap f l).
Proof.
  induction l as [|x l IH]; intros Hall; [constructor|].
  destruct (Hall x ltac:(left)) as [y Hy].
  change (omap f (x :: l))
    with (match f x with Some y => y :: omap f l | None => omap f l end).
  rewrite Hy. constructor; [done|]. apply IH. intros x' Hx'. apply Hall.
  by right.
Qed.

Lemma slice_step_pos {A} (l : list A) (step : Z) :
  0 < step →
  ∃ ps, slice_step l step = Ok ps
        ∧ len ps = (len l + step - 1) / step
        ∧ ∀ i : nat, (i < length ps)%nat →
            Z.of_nat i * step < len l
            ∧ ps !! i = l !! Z.to_nat (Z.of_nat i * step).
Proof.
  intros Hstep. unfold slice_step.
  destruct (Z.eqb_spec step 0) as [|_]; [lia|].
  destruct (Z.ltb_spec 0 step) as [_|]; [|lia].
  rewrite Z.abs_eq by lia.
  set (n := (len l + step - 1) / step).
  assert (0 ≤ n) as Hn0 by (apply Z.div_pos; unfold len; lia).
  assert (∀ i, 0 ≤ i < n → i * step < len l) as Hin.
  { intros i Hi. pose proof (Z.mul_div_le (len l + step - 1) step Hstep).
    fold n in H. nia. }
  pose proof (omap_total (λ i, l !! Z.to_nat (0 + i * step)) (range n)) as Hall.
  eexists. split; [done|].
  assert (Forall2 (λ i y, l !! Z.to_nat (0 + i * step) = Some y) (range n)
            (omap (λ i, l !! Z.to_nat (0 + i * step)) (range n))) as Hf.
  { apply Hall. intros i Hi. unfold range in Hi.
    apply list_elem_of_fmap in Hi as (k & -> & Hk). apply elem_of_seq in Hk.
    apply lookup_lt_is_Some_2.
    pose proof (Hin (Z.of_nat k) ltac:(lia)). unfold len in *. lia. }
  pose proof (Forall2_length _ _ _ Hf) as Hlen.
  assert (length (range n) = Z.to_nat n) as Hrange
    by (unfold range; by rewrite length_fmap, length_seq).
  rewrite Hrange in Hlen.
  split; [unfold len at 1; lia|].
  intros i Hi. split; [apply Hin; lia|].
  destruct (Forall2_lookup_l _ _ _ i (Z.of_nat i) Hf) as (y & Hy & Hl).
  { apply range_lookup. lia. }
  rewrite Hy. by rewrite <- Hl.
Qed.

(** X11. What is plotted is every value when there are at most 1000 of
    them, and otherwise every twentieth value from the first one on,
    which leaves more than fifty of them. *)
Theorem plotted_values_thinned {A} (simulated_values : list A) :
  ∃ ps, plotted_values simulated_values = Ok ps
        ∧ (len simulated_values ≤ 1000 → ps = simulated_values)
        ∧ (1000 < len simulated_values →
           len ps = (len simulated_values + 19) / 20 ∧ 50 < len ps
           ∧ ∀ i : nat, (i < length ps)%nat →
               ps !! i = simulated_values !! (20 * i)%nat).
Proof.
  unfold plotted_values, plotevery.
  destruct (Z.ltb_spec 1000 (len simulated_values)) as [Hbig|Hsmall].
  - destruct (slice_step_pos simulated_values 20 ltac:(lia))
      as (ps & -> & Hlen & Hat).
    exists ps. split; [done|]. split; [lia|]. intros _.
    replace (len simulated_values + 20 - 1) with (len simulated_values + 19)
      in Hlen by lia.
    split; [done|]. split.
    + assert (51 ≤ (len simulated_values + 19) / 20)
        by (apply Z.div_le_lower_bound; lia).
      lia.
    + intros i Hi. destruct (Hat i Hi) as [_ ->]. f_equal. lia.
  - destruct (slice_step_pos simulated_values 1 ltac:(lia))
      as (ps & -> & Hlen & Hat).
    exists ps. split; [done|]. split; [|lia]. intros _.
    rewrite Z.div_1_r in Hlen. unfold len in Hlen.
    apply list_eq. intros i. destruct (decide (i < length ps)%nat) as [Hi|Hi].
    + destruct (Hat i Hi) as [_ ->]. f_equal. lia.
    + rewrite !lookup_ge_None_2; [done|lia..].
Qed.

Lemma plotevery_pos {A} (simulated_values : list A) :
  0 < plotevery simulated_values.
Proof. unfold plotevery. destruct (_ <? _); lia. Qed.

Lemma div_zero_pos (m : positive) (e : Z) :
  F64.div F64.zero (S754_finite false m e) = F64.zero.
Proof. reflexivity. Qed.

Lemma xvals_ok {A} (simulated_values : list A) :
  len simulated_values < 2 ^ 53 →
  ∃ xs, xvals simulated_values = Ok xs
        ∧ len xs = len simulated_values
        ∧ (1 ≤ len simulated_values → xs !! 0%nat = Some F64.zero).
Proof.
  intros Hsmall. unfold xvals. set (L := len simulated_values) in *.
  assert (0 ≤ L) as HL0 by (unfold L, len; lia).
  destruct (result_mapM_ok
              (λ i, result_bind (F64.of_int i) (λ x,
                    result_bind (F64.of_int L) (λ n, Ok (F64.div x n))))
              (range L)) as (xs & Hxs & Hf).
  { intros i Hi. unfold range in Hi.
    apply list_elem_of_fmap in Hi as (k & -> & Hk). apply elem_of_seq in Hk.
    destruct (of_int_small (Z.of_nat k)) as (x & -> & _); [lia|].
    destruct (of_int_small L) as (n & -> & _); [lia|]. done. }
  exists xs. split; [done|].
  pose proof (Forall2_length _ _ _ Hf) as Hlen.
  assert (length (range L) = Z.to_nat L) as Hrange
    by (unfold range; by rewrite length_fmap, length_seq).
  rewrite Hrange in Hlen.
  split; [unfold len at 1; lia|]. intros Hone.
  destruct (Forall2_lookup_l _ _ _ 0%nat 0 Hf) as (y & Hy & Hdiv).
  { apply (range_lookup L 0). lia. }
  rewrite Hy. f_equal.
  destruct (round_Z_small_exact L) as (m & e & HLf & _); [lia|].
  unfold F64.of_int in Hdiv. rewrite HLf in Hdiv. simpl in Hdiv.
  by injection Hdiv as <-.
Qed.

(** X12. For fewer than [2^53] values, the x-axis has one position per
    value, the first of them [0.0], and it is thinned by the same stride
    as the values: the two arrays handed to the plot have one length. *)
Theorem plot_arrays_agree {A} (simulated_values : list A) :
  len simulated_values < 2 ^ 53 →
  ∃ xs ps px,
    xvals simulated_values = Ok xs
    ∧ len xs = len simulated_values
    ∧ (1 ≤ len simulated_values → xs !! 0%nat = Some F64.zero)
    ∧ plotted_values simulated_values = Ok ps
    ∧ plotted_xvals simulated_values = Ok px
    ∧ len px = len ps
    ∧ ∀ i : nat, (i < length px)%nat →
        px !! i = xs !! Z.to_nat (Z.of_nat i * plotevery simulated_values).
Proof.
  intros Hsmall.
  destruct (xvals_ok simulated_values Hsmall) as (xs & Hxs & Hlen & Hfirst).
  pose proof (plotevery_pos simulated_values) as Hstep.
  destruct (slice_step_pos simulated_values _ Hstep) as (ps & Hps & Hlps & _).
  destruct (slice_step_pos xs _ Hstep) as (px & Hpx & Hlpx & Hat).
  exists xs, ps, px. unfold plotted_values, plotted_xvals. rewrite Hxs.
  repeat split; try done.
  - rewrite Hlps, Hlpx. by rewrite Hlen.
  - intros i Hi. by destruct (Hat i Hi) as [_ ->].
Qed.

(** ** A campaign *)

Lemma result_mapM_raise {A B} (f : A → result B) (l : list A) (e : exn) :
  result_mapM f l = Raise e → ∃ a, a ∈ l ∧ f a = Raise e.
Proof.
  induction l as [|a l IH]; simpl; [done|].
  destruct (f a) as [b|e'] eqn:Hb; simpl.
  - destruct (result_mapM f l) as [bs|e']; [done|]. simpl.
    intros [= <-]. destruct IH as (a' & Hin & Ha'); [done|].
    exists a'. split; [by right|done].
  - intros [= <-]. exists a. split; [by left|done].
Qed.

Lemma result_mapM_total {A B} (f : A → result B) (g : A → B) (l : list A) :
  (∀ a, f a = Ok (g a)) → result_mapM f l = Ok (g <$> l).
Proof.
  intros Hf. induction l as [|a l IH]; [done|].
  cbn [result_mapM]. by rewrite Hf, IH.
Qed.

Lemma zip_fmap_self {A B} (g : A → B) (l : list A) :
  zip (g <$> l) l = (λ a, (g a, a)) <$> l.
Proof. induction l as [|a l IH]; [done|]. cbn. by f_equal. Qed.

Lemma map_collect_ok {A B} (f : A → result B) (l : list A) (bs : list B) :
  map_collect f l = Ok bs ↔ result_mapM f l = Ok bs.
Proof.
  unfold map_collect. destruct (result_mapM f l); split; congruence.
Qed.

(** A job fails only because a task raised, and then with py4j's error. *)
Lemma map_collect_raise {A B} (f : A → result B) (l : list A) (e : exn) :
  map_collect f l = Raise e →
  e = Py4JJavaError ∧ ∃ a e', a ∈ l ∧ f a = Raise e'.
Proof.
  unfold map_collect. destruct (result_mapM f l) as [bs|e'] eqn:Hm; [done|].
  intros [= <-]. split; [done|].
  destruct (result_mapM_raise f l e' Hm) as (a & Hin & Ha). by exists a, e'.
Qed.

Section CampaignFacts.

Context {G : Prng} {D : PyDict}.
Implicit Types (pf portfolio bpf_value : pydict).
Implicit Types (params : gmap string (float * float)).

Lemma simulate_raise_any seed seed' pf params days e :
  simulate seed pf params days = Raise e →
  simulate seed' pf params days = Raise e.
Proof.
  unfold simulate.
  destruct (simulate_loop (Z.to_nat days) (copy pf) params (prng_seed seed))
    as [[pf0 st0]|e0] eqn:Hloop; [done|].
  intros [= <-].
  apply simulate_loop_raise_first in Hloop as [Hn Hstep].
  apply (simstep_raise_any _ _ _ (prng_seed seed')) in Hstep.
  destruct (Z.to_nat days) as [|n]; [lia|].
  simpl. unfold bind. by rewrite Hstep.
Qed.

(** The history of a trial that [simulate] completes. *)
Lemma history_of_simulate seed pf params N pf' :
  0 ≤ N → simulate seed pf params N = Ok pf' →
  ∃ vs, simulate_with_history seed pf params N = Ok vs
        ∧ len vs = N + 1
        ∧ getitem vs 0 = Ok (portfolio_value (copy pf))
        ∧ getitem vs (-1) = Ok (portfolio_value pf').
Proof.
  intros HN. unfold simulate, simulate_with_history.
  pose proof (history_loop_simulate_loop (Z.to_nat N) (copy pf) params
                [portfolio_value (copy pf)] (prng_seed seed)) as Hrel.
  destruct (simulate_loop _ (copy pf) params _) as [[pf0 st1]|e1]; [|done].
  intros [= <-].
  destruct (history_loop _ (copy pf) params _ _) as [[vs st2]|e2]; [|done].
  destruct Hrel as (_ & trace & -> & Hlen & Hlast).
  eexists. split; [done|]. split; [unfold len; simpl; lia|].
  split; [done|]. by apply getitem_last.
Qed.

Lemma trial_outcome_inv days bpf_value params initial_value s v :
  trial_outcome days bpf_value params initial_value s = Ok v →
  ∃ pf', simulate s bpf_value params days = Ok pf'
         ∧ v = float_sub (portfolio_value pf') initial_value.
Proof.
  unfold trial_outcome.
  destruct (simulate s bpf_value params days) as [pf'|e]; [|done].
  intros [= <-]. by exists pf'.
Qed.

Lemma trial_outcome_raise_any days bpf_value params initial_value s s' e :
  trial_outcome days bpf_value params initial_value s = Raise e →
  trial_outcome days bpf_value params initial_value s' = Raise e.
Proof.
  unfold trial_outcome.
  destruct (simulate s bpf_value params days) as [pf'|e'] eqn:Hsim; [done|].
  intros [= <-]. by rewrite (simulate_raise_any s s' _ _ _ _ Hsim).
Qed.

(** Every collected pair is an outcome with the seed that produced it. *)
Lemma simulated_results_elem days portfolio bpf_value params seed_list
    rs v s :
  simulated_results days portfolio bpf_value params seed_list = Ok rs →
  (v, s) ∈ rs →
  trial_outcome days bpf_value params (portfolio_value portfolio) s = Ok v.
Proof.
  unfold simulated_results.
  destruct (map_collect _ seed_list) as [outcomes|e] eqn:Hm; [|done].
  intros [= <-] Hin. apply map_collect_ok, result_mapM_inv in Hm.
  apply list_elem_of_lookup in Hin as [i Hi].
  apply lookup_zip_with_Some in Hi as (v' & s' & [= <- <-] & Hv & Hs).
  by destruct (Forall2_lookup_lr _ _ _ _ _ _ Hm Hs Hv).
Qed.

End CampaignFacts.

(** X13. The collected results pair every outcome with the seed that
    produced it, one pair per seed and in the order of the seeds; the
    collection returns when every held symbol has a profile; and when it
    fails, it fails with py4j's error, there was a seed to run, and every
    single trial raises, all of them the same error. *)
Theorem simulated_results_paired `{G : Prng} `{D : PyDict} (days : Z)
    (portfolio bpf_value : pydict) (params : gmap string (float * float))
    (seed_list : list Z) :
  (covers params bpf_value →
   ∃ rs, simulated_results days portfolio bpf_value params seed_list = Ok rs)
  ∧ (∀ rs,
       simulated_results days portfolio bpf_value params seed_list = Ok rs →
       rs.*2 = seed_list
       ∧ ∀ v s, (v, s) ∈ rs →
           trial_outcome days bpf_value params (portfolio_value portfolio) s
           = Ok v)
  ∧ (∀ e,
       simulated_results days portfolio bpf_value params seed_list
       = Raise e →
       e = Py4JJavaError
       ∧ seed_list ≠ []
       ∧ ∃ e', ∀ s,
           trial_outcome days bpf_value params (portfolio_value portfolio) s
           = Raise e').
Proof.
  split; [|split].
  - intros Hc. unfold simulated_results.
    destruct (result_mapM_ok
                (trial_outcome days bpf_value params
                   (portfolio_value portfolio)) seed_list)
      as (outcomes & Hm & _).
    + intros s _. unfold trial_outcome, simulate.
      destruct (simulate_loop_covered (Z.to_nat days) (copy bpf_value) params
                  (prng_seed s)) as (pf' & st' & ->);
        [unfold covers; by rewrite entries_copy|done].
    + apply map_collect_ok in Hm. rewrite Hm. by eexists.
  - intros rs Hrs.
    split; [|intros v s; by apply (simulated_results_elem _ _ _ _ seed_list)].
    unfold simulated_results in Hrs.
    destruct (map_collect _ seed_list) as [outcomes|e] eqn:Hm; [|done].
    injection Hrs as <-.
    apply map_collect_ok, result_mapM_inv, Forall2_length in Hm.
    apply snd_zip. lia.
  - intros e Hraise. unfold simulated_results in Hraise.
    destruct (map_collect _ seed_list) as [outcomes|e0] eqn:Hm; [done|].
    injection Hraise as ->.
    apply map_collect_raise in Hm as (-> & s0 & e' & Hin & Hs0).
    split; [done|]. split; [by intros ->; apply elem_of_nil in Hin|].
    exists e'. intros s. by apply (trial_outcome_raise_any _ _ _ _ s0).
Qed.

(** X14. With no day simulated every trial reports the same change,
    whatever its seed: the value of its copy of the broadcast portfolio
    minus the initial value.  That is exactly [+0.0] when the initial
    value is finite and the copy sums to it, as it does when the copy is
    traversed like the portfolio or at most two securities are held. *)
Theorem trial_outcome_zero_days `{G : Prng} `{D : PyDict}
    (portfolio bpf_value : pydict) (params : gmap string (float * float))
    (seed_list : list Z) :
  (∀ s, trial_outcome 0 bpf_value params (portfolio_value portfolio) s
        = Ok (float_sub (portfolio_value (copy bpf_value))
                (portfolio_value portfolio)))
  ∧ simulated_results 0 portfolio bpf_value params seed_list
    = Ok ((λ s, (float_sub (portfolio_value (copy bpf_value))
                   (portfolio_value portfolio), s)) <$> seed_list)
  ∧ (entries bpf_value = entries portfolio →
     (size (entries portfolio) ≤ 2)%nat
     ∨ items (copy bpf_value) = items portfolio →
     F64.is_finite (portfolio_value portfolio) = true →
     simulated_results 0 portfolio bpf_value params seed_list
     = Ok ((λ s, (F64.zero, s)) <$> seed_list)).
Proof.
  assert (simulated_results 0 portfolio bpf_value params seed_list
          = Ok ((λ s, (float_sub (portfolio_value (copy bpf_value))
                         (portfolio_value portfolio), s)) <$> seed_list))
    as Hall.
  { unfold simulated_results, map_collect.
    rewrite (result_mapM_total _
               (λ _, float_sub (portfolio_value (copy bpf_value))
                       (portfolio_value portfolio))) by done.
    cbn [result_map]. by rewrite zip_fmap_self. }
  split; [done|]. split; [done|].
  intros He Hsame Hfin. rewrite Hall.
  assert (portfolio_value (copy bpf_value) = portfolio_value portfolio) as ->.
  { apply portfolio_value_same_entries; [by rewrite entries_copy|done]. }
  by rewrite float_sub_self.
Qed.

(** X15. The walks plotted for the deciles agree with what the campaign
    recorded: for every selected pair of an outcome and its seed, the
    re-run of that seed in history mode returns six values, starts at the
    value of the trial's copy of the broadcast portfolio, and ends at the
    value whose difference from the initial value is the recorded
    outcome. *)
Theorem walks_match_outcomes `{G : Prng} `{D : PyDict}
    (portfolio bpf_value : pydict) (params : gmap string (float * float))
    (seed_list : list Z) (rs sorted_rs eleven : list (float * Z)) :
  simulated_results days_to_simulate portfolio bpf_value params seed_list
  = Ok rs →
  sorted_rs ≡ₚ rs →
  eleven_results sorted_rs = Ok eleven →
  ∃ walks, walk_results bpf_value params eleven = Ok walks
    ∧ length walks = length eleven
    ∧ ∀ (i : nat) v s w, eleven !! i = Some (v, s) → walks !! i = Some w →
        simulate_with_history s bpf_value params 5 = Ok w
        ∧ len w = 6
        ∧ getitem w 0 = Ok (portfolio_value (copy bpf_value))
        ∧ ∃ final, getitem w (-1) = Ok final
                   ∧ v = float_sub final (portfolio_value portfolio).
Proof.
  intros Hrs Hperm Heleven.
  assert (∀ v s, (v, s) ∈ eleven →
            ∃ pf' w, simulate s bpf_value params 5 = Ok pf'
              ∧ v = float_sub (portfolio_value pf')
                      (portfolio_value portfolio)
              ∧ simulate_with_history s bpf_value params 5 = Ok w
              ∧ len w = 6
              ∧ getitem w 0 = Ok (portfolio_value (copy bpf_value))
              ∧ getitem w (-1) = Ok (portfolio_value pf')) as Hall.
  { intros v s Hin. unfold eleven_results in Heleven.
    apply result_mapM_inv in Heleven.
    apply list_elem_of_lookup in Hin as [i Hi].
    destruct (Forall2_lookup_r _ _ _ _ _ Heleven Hi) as (k & _ & Hget).
    apply getitem_elem_of in Hget. rewrite Hperm in Hget.
    apply (simulated_results_elem _ _ _ _ _ _ _ _ Hrs) in Hget.
    apply trial_outcome_inv in Hget as (pf' & Hsim & ->).
    destruct (history_of_simulate s bpf_value params 5 pf' ltac:(lia) Hsim)
      as (w & Hw & Hlen & Hfirst & Hlast).
    by exists pf', w. }
  unfold walk_results, eleven_seeds.
  destruct (result_mapM_ok (λ s, simulate_with_history s bpf_value params 5)
              eleven.*2) as (walks & Hwalks & Hf).
  { intros s Hs. apply list_elem_of_fmap in Hs as ([v s'] & -> & Hin).
    destruct (Hall v s' Hin) as (pf' & w & _ & _ & Hw & _). simpl.
    by rewrite Hw. }
  exists walks. split; [by apply map_collect_ok|].
  pose proof (Forall2_length _ _ _ Hf) as Hlen. rewrite length_fmap in Hlen.
  split; [done|]. intros i v s w Hi Hw.
  destruct (Hall v s) as (pf' & w' & _ & -> & Hrun & Hlen6 & Hfirst & Hlast).
  { by eapply list_elem_of_lookup_2. }
  assert (simulate_with_history s bpf_value params 5 = Ok w) as Hrun'.
  { eapply (Forall2_lookup_lr _ _ _ i s w Hf); [|done].
    by rewrite list_lookup_fmap, Hi. }
  rewrite Hrun in Hrun'. injection Hrun' as ->.
  split; [done|]. split; [done|]. split; [done|].
  by exists (portfolio_value pf').
Qed.

(** * Instances of the further properties *)

Lemma sample_symbols_priced :
  ∀ s, s ∈ sample_symbols → is_Some (sample_prices !! s).
Proof.
  apply Forall_forall. unfold sample_symbols.
  repeat constructor; eexists; vm_compute; reflexivity.
Qed.

Lemma sample_prices_sign_clear :
  ∀ s price, sample_prices !! s = Some price → sign_clear price.
Proof.
  intros s price. unfold sample_prices.
  rewrite lookup_insert_Some, lookup_singleton_Some.
  intros [[_ <-]|[_ [_ <-]]]; exact eq_refl.
Qed.

Lemma two_securities_sign_clear :
  ∀ s q, entries two_securities !! s = Some q → sign_clear q.
Proof.
  intros s q. rewrite entries_two_securities.
  rewrite lookup_insert_Some, lookup_singleton_Some.
  intros [[_ <-]|[_ [_ <-]]]; exact eq_refl.
Qed.

Lemma covers_nan_profiles : covers nan_profiles two_securities.
Proof.
  unfold covers, nan_profiles. rewrite entries_two_securities.
  by rewrite !dom_insert_L, !dom_singleton_L.
Qed.

Lemma entries_two_securities_broadcast :
  entries two_securities_broadcast = entries two_securities.
Proof. vm_compute. reflexivity. Qed.

Lemma covers_two_securities_broadcast :
  covers two_profiles two_securities_broadcast.
Proof.
  unfold covers. rewrite entries_two_securities_broadcast.
  apply covers_two_securities.
Qed.

Lemma random_portfolio_priced_witness :
  ∃ pf q,
    @random_portfolio Lcg.prng Cpython27.dict sample_prices sample_symbols 7
    = Ok (pf, Nat.iter 3 (@lot_draw Lcg.prng) 7)
    ∧ dom (entries pf) = list_to_set sample_symbols
    ∧ entries pf !! "BBB"%string = Some q
    ∧ @lot_set Lcg.prng sample_prices 7 2 "BBB"%string q.
Proof.
  destruct (@random_portfolio_priced Lcg.prng Cpython27.dict sample_prices
              sample_symbols 7 sample_symbols_priced)
    as (pf & Hrun & Hdom & Hset).
  assert ("BBB"%string ∈ dom (entries pf)) as Hheld.
  { rewrite Hdom. apply elem_of_list_to_set. unfold sample_symbols.
    apply elem_of_cons. left. reflexivity. }
  apply elem_of_dom in Hheld as [q Hq].
  destruct (Hset "BBB"%string q Hq) as (i & Hi & Hlast & _ & Hlot).
  assert (i = 2%nat) as ->.
  { destruct i as [|[|[|i]]]; [|discriminate Hi|reflexivity|discriminate Hi].
    exfalso. apply (Hlast 2%nat); [lia|reflexivity]. }
  exists pf, q. exact (conj Hrun (conj Hdom (conj Hq Hlot))).
Defined.

Lemma random_portfolio_missing_price_witness :
  @random_portfolio Lcg.prng Cpython27.dict sample_prices
    (["AAA"%string] ++ "CCC"%string :: ["BBB"%string]) 7
  = Raise (KeyError "CCC"%string).
Proof.
  assert (∀ s', s' ∈ ["AAA"%string] → is_Some (sample_prices !! s'))
    as Hbefore.
  { apply Forall_forall. repeat constructor. eexists. vm_compute. reflexivity. }
  assert (sample_prices !! "CCC"%string = None) as Hmissing
    by (vm_compute; reflexivity).
  exact (@random_portfolio_missing_price Lcg.prng Cpython27.dict sample_prices
           ["AAA"%string] ["BBB"%string] "CCC"%string 7 Hbefore Hmissing).
Defined.

Lemma random_portfolio_not_negative_witness :
  ∃ pf st' q,
    @random_portfolio Lcg.prng Cpython27.dict sample_prices sample_symbols 7
    = Ok (pf, st')
    ∧ entries pf !! "AAA"%string = Some q ∧ sign_clear q.
Proof.
  assert (Forall (λ s, is_Some (sample_prices !! s)) sample_symbols) as Hall
    by (apply Forall_forall; exact sample_symbols_priced).
  destruct (@random_portfolio_loop_priced Lcg.prng Cpython27.dict
              sample_prices sample_symbols dict_new 7 Hall)
    as (pf & Hrun & _ & _ & Hin).
  assert ("AAA"%string ∈ sample_symbols) as Hheld
    by (unfold sample_symbols; apply elem_of_cons; right; apply elem_of_cons;
        left; reflexivity).
  destruct (Hin "AAA"%string Hheld) as (i & q & _ & _ & Hq & _).
  exists pf, (Nat.iter (length sample_symbols) (@lot_draw Lcg.prng) 7), q.
  exact (conj Hrun (conj Hq
           (@random_portfolio_not_negative Lcg.prng Cpython27.dict
              sample_prices sample_symbols 7 _ pf sample_prices_sign_clear
              Hrun "AAA"%string q Hq))).
Defined.

Lemma portfolio_value_not_negative_witness :
  sign_clear (portfolio_value two_securities).
Proof.
  exact (proj1 (@portfolio_value_not_negative Cpython27.dict two_securities
                  two_securities_sign_clear)).
Defined.

Lemma history_entries_witness :
  ∃ vs pf2,
    @simulate_with_history Lcg.prng Cpython27.dict 42 two_securities
      two_profiles 3 = Ok vs
    ∧ @simulate Lcg.prng Cpython27.dict 42 two_securities two_profiles 2
      = Ok pf2
    ∧ getitem vs 2 = Ok (portfolio_value pf2).
Proof.
  destruct (@simulate_with_history Lcg.prng Cpython27.dict 42 two_securities
              two_profiles 3)
    as [vs|e] eqn:Hvs; [|vm_compute in Hvs; discriminate Hvs].
  assert (0 ≤ 3) as Hdays by lia.
  assert (0 ≤ 2 ≤ 3) as Hday by lia.
  destruct (@history_entries Lcg.prng Cpython27.dict 42 two_securities
              two_profiles 3 vs Hdays Hvs 2 Hday) as (pf2 & Hsim & Hget).
  exists vs, pf2. exact (conj eq_refl (conj Hsim Hget)).
Defined.

Lemma history_prefix_witness :
  ∃ vs',
    @simulate_with_history Lcg.prng Cpython27.dict 42 two_securities
      two_profiles 3 = Ok vs'
    ∧ @simulate_with_history Lcg.prng Cpython27.dict 42 two_securities
        two_profiles 1
      = Ok (take (Z.to_nat (1 + 1)) vs').
Proof.
  destruct (@simulate_with_history Lcg.prng Cpython27.dict 42 two_securities
              two_profiles 3)
    as [vs'|e] eqn:Hvs; [|vm_compute in Hvs; discriminate Hvs].
  assert (0 ≤ 1 ≤ 3) as Hdays by lia.
  exists vs'.
  exact (conj eq_refl
           (@history_prefix Lcg.prng Cpython27.dict 42 two_securities
              two_profiles 1 3 vs' Hdays Hvs)).
Defined.

Lemma simulate_error_fixed_witness :
  ∃ e,
    @simulate Lcg.prng Cpython27.dict 7 two_securities rising_profile 3
    = Raise e
    ∧ @simulate_with_history Lcg.prng Cpython27.dict 7 two_securities
        rising_profile 3
      = Raise e.
Proof.
  destruct (@simulate Lcg.prng Cpython27.dict 42 two_securities
              rising_profile 1)
    as [pf'|e] eqn:Hsim;
    [apply (f_equal is_ok) in Hsim; vm_compute in Hsim; discriminate Hsim|].
  assert (1 ≤ 3) as Hdays by lia.
  exists e.
  exact (@simulate_error_fixed Lcg.prng Cpython27.dict 42 7 two_securities
           rising_profile 1 3 e Hdays Hsim).
Defined.

Lemma simulate_nan_profile_witness :
  ∃ pf',
    @simulate Lcg.prng Cpython27.dict 42 two_securities nan_profiles 2
    = Ok pf'
    ∧ entries pf' !! "AAA"%string = Some S754_nan
    ∧ portfolio_value pf' = S754_nan.
Proof.
  assert (1 ≤ 2) as Hdays by lia.
  assert (entries two_securities !! "AAA"%string = Some F64.hundred) as Hheld
    by (vm_compute; reflexivity).
  assert (nan_profiles !! "AAA"%string = Some (F64.one, S754_nan)) as Hprofile
    by (vm_compute; reflexivity).
  exact (@simulate_nan_profile Lcg.prng Cpython27.dict 42 two_securities
           nan_profiles 2 "AAA"%string F64.hundred F64.one S754_nan
           covers_nan_profiles Hdays Hheld Hprofile (or_intror eq_refl)).
Defined.

Lemma seeds_extend_witness :
  (@seeds Lcg.prng (2 + 3) 7).1
  = (@seeds Lcg.prng 2 7).1 ++ (@seeds Lcg.prng 3 (@seeds Lcg.prng 2 7).2).1.
Proof.
  assert (0 ≤ 2) as Hn by lia.
  assert (0 ≤ 3) as Hm by lia.
  exact (proj1 (@seeds_extend Lcg.prng 2 3 7) Hn Hm).
Defined.

Lemma eleven_results_spread_witness :
  ∃ sel, eleven_results (range 7) = Ok sel
         ∧ sel !! 0%nat = range 7 !! 0%nat
         ∧ sel !! 10%nat = last (range 7).
Proof.
  assert (StronglySorted Z.lt (range 7)) as Hsorted
    by (vm_compute; repeat constructor).
  assert (1 ≤ len (range 7)) as Hlen by (vm_compute; discriminate).
  destruct (eleven_results_spread Z.lt (range 7) Hsorted Hlen)
    as (sel & Hsel & Hfirst & Hlast & _).
  exists sel. exact (conj Hsel (conj Hfirst Hlast)).
Defined.

Lemma plotted_values_thinned_witness :
  ∃ ps, plotted_values (range 2000) = Ok ps ∧ len ps = 100.
Proof.
  assert (1000 < len (range 2000)) as Hlong by (vm_compute; reflexivity).
  destruct (plotted_values_thinned (range 2000)) as (ps & Hps & _ & Hthin).
  destruct (Hthin Hlong) as (Hlen & _).
  assert ((len (range 2000) + 19) / 20 = 100) as Hcount
    by (vm_compute; reflexivity).
  exists ps. exact (conj Hps (eq_trans Hlen Hcount)).
Defined.

Lemma simulated_results_paired_witness :
  (∃ rs,
     @simulated_results Lcg.prng Cpython27.dict 5 two_securities
       two_securities_broadcast two_profiles [11; 12; 13]
     = Ok rs
     ∧ rs.*2 = [11; 12; 13])
  ∧ @simulated_results Lcg.prng Cpython27.dict 5 two_securities
      two_securities_broadcast rising_profile [11; 12; 13]
    = Raise Py4JJavaError.
Proof.
  destruct (@simulated_results_paired Lcg.prng Cpython27.dict 5
              two_securities two_securities_broadcast two_profiles
              [11; 12; 13]) as (Hok & Hpairs & _).
  destruct (Hok covers_two_securities_broadcast) as (rs & Hrs).
  destruct (@simulated_results_paired Lcg.prng Cpython27.dict 5
              two_securities two_securities_broadcast rising_profile
              [11; 12; 13]) as (_ & _ & Hfail).
  destruct (@simulated_results Lcg.prng Cpython27.dict 5 two_securities
              two_securities_broadcast rising_profile [11; 12; 13])
    as [rs'|e] eqn:Hrun;
    [apply (f_equal is_ok) in Hrun; vm_compute in Hrun; discriminate Hrun|].
  destruct (Hfail e eq_refl) as (-> & _).
  exact (conj (ex_intro _ rs (conj Hrs (proj1 (Hpairs rs Hrs)))) eq_refl).
Defined.

Lemma trial_outcome_zero_days_witness :
  @simulated_results Lcg.prng Cpython27.dict 0 two_securities
    two_securities_broadcast two_profiles [11; 12; 13]
  = Ok [(F64.zero, 11); (F64.zero, 12); (F64.zero, 13)].
Proof.
  assert (F64.is_finite (portfolio_value two_securities) = true) as Hfinite
    by (vm_compute; reflexivity).
  exact (proj2 (proj2 (@trial_outcome_zero_days Lcg.prng Cpython27.dict
                         two_securities two_securities_broadcast two_profiles
                         [11; 12; 13]))
           entries_two_securities_broadcast (or_introl two_securities_small)
           Hfinite).
Defined.

Lemma walks_match_outcomes_witness :
  ∃ rs eleven walks,
    @simulated_results Lcg.prng Cpython27.dict days_to_simulate two_securities
      two_securities_broadcast two_profiles [11; 12; 13] = Ok rs
    ∧ eleven_results rs = Ok eleven
    ∧ @walk_results Lcg.prng Cpython27.dict two_securities_broadcast
        two_profiles eleven = Ok walks
    ∧ length walks = length eleven.
Proof.
  destruct (@simulated_results Lcg.prng Cpython27.dict days_to_simulate
              two_securities two_securities_broadcast two_profiles
              [11; 12; 13]) as [rs|e] eqn:Hrs;
    [|vm_compute in Hrs; discriminate Hrs].
  destruct (eleven_results rs) as [eleven|e] eqn:Heleven.
  - destruct (@walks_match_outcomes Lcg.prng Cpython27.dict two_securities
                two_securities_broadcast two_profiles [11; 12; 13] rs rs
                eleven Hrs (Permutation_refl rs) Heleven)
      as (walks & Hwalks & Hlen & _).
    exists rs, eleven, walks.
    exact (conj eq_refl (conj Heleven (conj Hwalks Hlen))).
  - exfalso. vm_compute in Hrs. injection Hrs as <-.
    vm_compute in Heleven. discriminate Heleven.
Defined.

Lemma plot_arrays_agree_witness :
  ∃ xs px, xvals (range 2000) = Ok xs
           ∧ plotted_xvals (range 2000) = Ok px
           ∧ len px = 100.
Proof.
  assert (len (range 2000) < 2 ^ 53) as Hsmall by (vm_compute; reflexivity).
  destruct (plot_arrays_agree (range 2000) Hsmall)
    as (xs & ps & px & Hxs & _ & _ & Hps & Hpx & Hlen & _).
  assert (plotted_values (range 2000) = Ok (Z.mul 20 <$> range 100)) as Hps'
    by (vm_compute; reflexivity).
  assert (Ok ps = Ok (Z.mul 20 <$> range 100)) as Heq
    by (exact (eq_trans (eq_sym Hps) Hps')).
  injection Heq as ->.
  exists xs, px. exact (conj Hxs (conj Hpx Hlen)).
Defined.
